(** * Nabzram: the UI service layer and the orchestration contract

    A shallow embedding of the TypeScript sources of the Nabzram front end
    ([ui/services/api.ts], [ui/components/LogStreamModal.tsx],
    [ui/components/StatusIndicator.tsx], [ui/types.ts]) together with a model
    of the Python side of the bridge, which the front end only sees through
    [window.pywebview.api] and [docs/API.md].

    Conventions.
    - JavaScript numbers are restricted to the integers the API carries
      (timestamps in milliseconds, ports, counts, process ids): [Z].
    - A JavaScript object is an association list in enumeration order.
    - An [async] function is modelled by its completion: the value its promise
      is fulfilled with, or the message of the [Error] it is rejected with.
    - [Date.now()], [window.pywebview.api] and the outcome of a bridge call
      are inputs of the functions that read them. *)

From Stdlib Require Import ZArith Ascii String List Lia DecimalString DecimalN.
From stdpp Require Import base option list gmap strings.

Set Warnings "-register-all,-clear-no-such-hyp".
Local Open Scope Z_scope.

(** ** JavaScript values, as far as the sources use them *)

Module JS.

Inductive value : Type :=
| VUndefined
| VNull
| VBool (b : bool)
| VNum (n : Z)
| VStr (s : string)
| VArr (elems : list value)
| VObj (props : list (string * value)).

(** An awaited call either yields a value or throws [new Error(message)]. *)
Inductive completion (A : Type) : Type :=
| Return (a : A)
| Throw (message : string).
Arguments Return {A} a.
Arguments Throw {A} message.

(** ToBoolean. *)
Definition truthy (v : value) : bool :=
  match v with
  | VUndefined | VNull => false
  | VBool b => b
  | VNum n => negb (n =? 0)
  | VStr s => negb (String.eqb s EmptyString)
  | VArr _ | VObj _ => true
  end.

Inductive type_tag : Type :=
| TUndefined | TObject | TBoolean | TNumber | TString.

(** [typeof v]; [typeof null] is ["object"]. *)
Definition typeof (v : value) : type_tag :=
  match v with
  | VUndefined => TUndefined
  | VNull | VArr _ | VObj _ => TObject
  | VBool _ => TBoolean
  | VNum _ => TNumber
  | VStr _ => TString
  end.

Definition is_object_tag (t : type_tag) : bool :=
  match t with TObject => true | _ => false end.

Fixpoint assoc (k : string) (props : list (string * value)) : option value :=
  match props with
  | [] => None
  | (k', v) :: rest => if String.eqb k k' then Some v else assoc k rest
  end.

(** [v.k] for a property name [k] that is not built in (the sources read
    [success], [message] and [data]): the own property of an object,
    [undefined] on every other value that admits property access. *)
Definition get (v : value) (k : string) : value :=
  match v with
  | VObj props => default VUndefined (assoc k props)
  | _ => VUndefined
  end.

(** [a === b] against a boolean literal. *)
Definition strict_eq_bool (v : value) (b : bool) : bool :=
  match v with
  | VBool b' => Bool.eqb b' b
  | _ => false
  end.

(** [a || b]. *)
Definition or_else (a b : value) : value := if truthy a then a else b.

(** Decimal notation of an integer, [Number.prototype.toString]. *)
Definition Number_toString (n : Z) : string :=
  NilEmpty.string_of_int (Z.to_int n).

Definition index_keys (n : nat) : list string :=
  map (fun i => Number_toString (Z.of_nat i)) (seq 0 n).

(** [Object.keys(v)] for a value that is neither [null] nor [undefined]:
    own enumerable property names; the indices of a string or an array. *)
Definition Object_keys (v : value) : list string :=
  match v with
  | VObj props => map fst props
  | VArr elems => index_keys (length elems)
  | VStr s => index_keys (String.length s)
  | _ => []
  end.

Fixpoint join (sep : string) (parts : list string) : string :=
  match parts with
  | [] => EmptyString
  | [p] => p
  | p :: rest => p +:+ sep +:+ join sep rest
  end.

(** ToString, as a template literal applies it. *)
Fixpoint ToString (v : value) : string :=
  match v with
  | VUndefined => "undefined"
  | VNull => "null"
  | VBool b => if b then "true" else "false"
  | VNum n => Number_toString n
  | VStr s => s
  | VArr elems =>
      join "," (map (fun e => match e with
                              | VUndefined | VNull => EmptyString
                              | _ => ToString e
                              end) elems)
  | VObj _ => "[object Object]"
  end.

Definition dquote : string := String (ascii_of_nat 34) EmptyString.
Definition backslash : string := String (ascii_of_nat 92) EmptyString.

Definition hex_digit (n : nat) : ascii :=
  if (n <? 10)%nat then ascii_of_nat (48 + n) else ascii_of_nat (87 + n).

(** One character inside a JSON string literal. *)
Definition JSON_escape (c : ascii) : string :=
  let n := nat_of_ascii c in
  if (n =? 34)%nat then backslash +:+ dquote
  else if (n =? 92)%nat then backslash +:+ backslash
  else if (n =? 8)%nat then backslash +:+ "b"
  else if (n =? 9)%nat then backslash +:+ "t"
  else if (n =? 10)%nat then backslash +:+ "n"
  else if (n =? 12)%nat then backslash +:+ "f"
  else if (n =? 13)%nat then backslash +:+ "r"
  else if (n <? 32)%nat then
    backslash +:+ "u00" +:+
    String (hex_digit (n / 16)) (String (hex_digit (n mod 16)) EmptyString)
  else String c EmptyString.

Fixpoint JSON_escape_all (s : string) : string :=
  match s with
  | EmptyString => EmptyString
  | String c rest => JSON_escape c +:+ JSON_escape_all rest
  end.

Definition JSON_quote (s : string) : string :=
  dquote +:+ JSON_escape_all s +:+ dquote.

(** [JSON.stringify(v)]: [None] is the [undefined] it returns for
    [undefined]; inside an array [undefined] prints as [null], inside an
    object the property is left out. *)
Fixpoint JSON_stringify (v : value) : option string :=
  match v with
  | VUndefined => None
  | VNull => Some "null"
  | VBool b => Some (if b then "true" else "false")
  | VNum n => Some (Number_toString n)
  | VStr s => Some (JSON_quote s)
  | VArr elems =>
      Some ("[" +:+
            join "," (map (fun e => default "null" (JSON_stringify e)) elems)
            +:+ "]")
  | VObj props =>
      let fix members (ps : list (string * value)) : list string :=
        match ps with
        | [] => []
        | (k, e) :: rest =>
            match JSON_stringify e with
            | Some s => (JSON_quote k +:+ ":" +:+ s) :: members rest
            | None => members rest
            end
        end in
      Some ("{" +:+ join "," (members props) +:+ "}")
  end.

(** [`${JSON.stringify(v)}`]. *)
Definition JSON_text (v : value) : string :=
  default "undefined" (JSON_stringify v).

End JS.

Import JS.

(** ** [ui/services/api.ts] *)

Module Api.

(** The bridge object: [api[method]] is a function or is not. *)
Definition api_object : Type := string -> option (list value -> completion value).

Definition not_available (method : string) : string :=
  "App API not available: " +:+ method.

(** The part of [callApp] after [res] has arrived. *)
Definition unwrap (res : value) : completion value :=
  if truthy res && is_object_tag (typeof res)
     && strict_eq_bool (get res "success") false
  then
    let data := get res "data" in
    let extra :=
      if truthy data && negb (length (Object_keys data) =? 0)%nat
      then " (" +:+ JSON_text data +:+ ")"
      else EmptyString in
    Throw (ToString (or_else (get res "message") (VStr "Operation failed"))
           +:+ extra)
  else Return res.

(** [callApp(method, ...args)]; [ready] is the completion of
    [await ensureApiReady()]. *)
Definition callApp (ready : completion (option api_object))
    (method : string) (args : list value) : completion value :=
  match ready with
  | Throw e => Throw e
  | Return None => Throw (not_available method)
  | Return (Some api) =>
      match api method with
      | None => Throw (not_available method)
      | Some f =>
          match f args with
          | Throw e => Throw e
          | Return res => unwrap res
          end
      end
  end.

(** [res] is an object with [res.success === false]. *)
Definition is_failure (res : value) : bool :=
  match res with
  | VObj props =>
      match assoc "success" props with
      | Some (VBool false) => true
      | _ => false
      end
  | _ => false
  end.

(** How many keys [data] has; none when it is missing or [null]. *)
Definition key_count (data : value) : nat :=
  match data with
  | VUndefined | VNull => 0
  | _ => length (Object_keys data)
  end.

(** The text [callApp] appends for the [data] of an envelope. *)
Definition data_suffix (data : value) : string :=
  if (0 <? key_count data)%nat then " (" +:+ JSON_text data +:+ ")"
  else EmptyString.

(** The message of the thrown [Error] as the specification words it:
    [res.message], with ['Operation failed'] standing in only when [message]
    is absent ([undefined] or [null]), followed by the text for [data]. *)
Definition claimed_message (res : value) : string :=
  match get res "message" with
  | VUndefined | VNull => "Operation failed"
  | m => ToString m
  end +:+ data_suffix (get res "data").

(** The message [callApp] puts in the [Error]: ['Operation failed'] stands in
    whenever [res.message] is falsy. *)
Definition thrown_message (res : value) : string :=
  (if truthy (get res "message") then ToString (get res "message")
   else "Operation failed") +:+ data_suffix (get res "data").

(** *** [ensureApiReady]

    Promise objects are heap cells named by a [nat]; the module variable
    [apiReadyPromise] holds a reference or [null]. A live [setInterval]
    timer remembers the promise whose [resolve]/[reject] its callback
    closes over, the [startTime] it captured and the [timeout] argument. *)

Inductive promise_state : Type :=
| Pending
| Fulfilled (api : api_object)
| Rejected (message : string).

Record poller : Type := {
  poll_promise : nat;
  poll_startTime : Z;
  poll_timeout : Z
}.

Record runtime : Type := {
  apiReadyPromise : option nat;
  promises : gmap nat promise_state;
  intervals : gmap nat poller
}.

Definition boot : runtime :=
  {| apiReadyPromise := None; promises := ∅; intervals := ∅ |}.

Definition default_timeout : Z := 10000.

Definition timeout_message : string :=
  "pywebview API did not become available in time.".

(** [ensureApiReady(timeout)] called at [Date.now() = now] while
    [window.pywebview?.api] is [win]; returns the promise handed back. *)
Definition ensureApiReady (timeout now : Z) (win : option api_object)
    (w : runtime) : nat * runtime :=
  match apiReadyPromise w with
  | Some p => (p, w)
  | None =>
      let p := fresh (dom (promises w)) in
      match win with
      | Some api =>
          (p, {| apiReadyPromise := Some p;
                 promises := <[p := Fulfilled api]> (promises w);
                 intervals := intervals w |})
      | None =>
          let i := fresh (dom (intervals w)) in
          (p, {| apiReadyPromise := Some p;
                 promises := <[p := Pending]> (promises w);
                 intervals :=
                   <[i := {| poll_promise := p; poll_startTime := now;
                             poll_timeout := timeout |}]> (intervals w) |})
      end
  end.

(** Settling a promise that is no longer pending has no effect. *)
Definition settle (p : nat) (s : promise_state)
    (heap : gmap nat promise_state) : gmap nat promise_state :=
  match heap !! p with
  | Some Pending => <[p := s]> heap
  | _ => heap
  end.

(** One firing of the interval callback of timer [i]. *)
Definition tick (i : nat) (now : Z) (win : option api_object)
    (w : runtime) : runtime :=
  match intervals w !! i with
  | None => w
  | Some t =>
      match win with
      | Some api =>
          {| apiReadyPromise := apiReadyPromise w;
             promises := settle (poll_promise t) (Fulfilled api) (promises w);
             intervals := delete i (intervals w) |}
      | None =>
          if poll_timeout t <? now - poll_startTime t then
            {| apiReadyPromise := None;
               promises :=
                 settle (poll_promise t) (Rejected timeout_message) (promises w);
               intervals := delete i (intervals w) |}
          else w
      end
  end.

Inductive event : Type :=
| Call (timeout now : Z) (win : option api_object)
| Tick (i : nat) (now : Z) (win : option api_object).

Definition step (e : event) (w : runtime) : runtime :=
  match e with
  | Call timeout now win => (ensureApiReady timeout now win w).2
  | Tick i now win => tick i now win w
  end.

Definition run (es : list event) (w : runtime) : runtime :=
  foldl (fun w e => step e w) w es.

Definition pending (w : runtime) (p : nat) : Prop :=
  promises w !! p = Some Pending.

Definition fulfilled (w : runtime) (p : nat) : Prop :=
  exists api, promises w !! p = Some (Fulfilled api).

Definition rejected (w : runtime) (p : nat) : Prop :=
  exists m, promises w !! p = Some (Rejected m).

(** What holds of every state the module can reach: a live timer polls for
    the cached promise, which is still pending; there is at most one live
    timer; the cached promise is pending or fulfilled; and a pending cached
    promise has its timer. *)
Definition consistent (w : runtime) : Prop :=
  (forall i t, intervals w !! i = Some t ->
               apiReadyPromise w = Some (poll_promise t)
               /\ pending w (poll_promise t))
  /\ (forall i j t u, intervals w !! i = Some t -> intervals w !! j = Some u ->
                      i = j)
  /\ (forall p, apiReadyPromise w = Some p -> pending w p \/ fulfilled w p)
  /\ (forall p, apiReadyPromise w = Some p -> pending w p ->
                exists i t, intervals w !! i = Some t /\ poll_promise t = p).

(** The promise [p], once handed out, is cached for as long as it has not
    been rejected. *)
Definition cached_or_rejected (p : nat) (w : runtime) : Prop :=
  (apiReadyPromise w = Some p /\ (pending w p \/ fulfilled w p))
  \/ rejected w p.

End Api.

(** ** [ui/types.ts] *)

Module Types.

Inductive ServerStatus : Type := STOPPED | RUNNING | ERROR.

Definition ServerStatus_eqb (a b : ServerStatus) : bool :=
  match a, b with
  | STOPPED, STOPPED | RUNNING, RUNNING | ERROR, ERROR => true
  | _, _ => false
  end.

Record AllocatedPort : Type := {
  port : Z;
  protocol : string;
  tag : string
}.

(** [null] and an omitted optional field are both [None]. *)
Record ServerStatusResponse : Type := {
  status_message : string;
  server_id : option string;
  status : ServerStatus;
  remarks : option string;
  process_id : option Z;
  start_time : option string;
  allocated_ports : option (list AllocatedPort)
}.

Record ServerTestResult : Type := {
  test_server_id : string;
  test_remarks : string;
  success : bool;
  ping_ms : option Z;
  test_error : option string;
  socks_port : Z;
  http_port : Z
}.

Record SubscriptionUrlTestResponse : Type := {
  test_message : string;
  subscription_id : string;
  subscription_name : string;
  total_servers : nat;
  successful_tests : nat;
  failed_tests : nat;
  results : list ServerTestResult
}.

Record LogEntry : Type := {
  timestamp : string;
  message : string
}.

Record LogSnapshotResponse : Type := {
  snapshot_message : string;
  snapshot_server_id : option string;
  snapshot_logs : list LogEntry
}.

Record LogStreamBatchResponse : Type := {
  batch_message : string;
  batch_server_id : option string;
  logs : list LogEntry;
  next_since_ms : option Z
}.

End Types.

Import Types.

(** ** [ui/components/LogStreamModal.tsx]

    The mount effect runs [fetchInitialLogs] once; the polling effect keeps
    an interval of 1500 ms installed while the initial load has finished
    without error. A bridge call is an input here: its completion. *)

Module LogStreamModal.

(** The component's state: the [logs], [isLoading] and [error] hooks and
    the [sinceMsRef] ref. *)
Record modal : Type := {
  m_logs : list LogEntry;
  isLoading : bool;
  error : option string;
  sinceMsRef : option Z
}.

Definition mount : modal :=
  {| m_logs := []; isLoading := true; error := None; sinceMsRef := None |}.

(** [fetchInitialLogs], from the completion of [api.getLogSnapshot(200)];
    [now] is the [Date.now()] read after it. *)
Definition fetchInitialLogs (r : completion LogSnapshotResponse) (now : Z)
    (m : modal) : modal :=
  match r with
  | Return response =>
      {| m_logs := snapshot_logs response; isLoading := false;
         error := None; sinceMsRef := Some now |}
  | Throw msg =>
      {| m_logs := m_logs m; isLoading := false;
         error := Some msg; sinceMsRef := sinceMsRef m |}
  end.

(** The polling effect installs the interval unless [isLoading || error]. *)
Definition polling (m : modal) : bool :=
  negb (isLoading m
        || match error m with
           | Some msg => negb (String.eqb msg EmptyString)
           | None => false
           end).

(** The argument [sinceMsRef.current ?? undefined] of the request. *)
Definition request_since (m : modal) : option Z := sinceMsRef m.

(** [if (response.next_since_ms)]: a number other than [0]. *)
Definition cursor_truthy (c : option Z) : bool :=
  match c with
  | Some n => negb (n =? 0)
  | None => false
  end.

(** One run of [poll], from the completion of [api.getLogStreamBatch]. *)
Definition poll (r : completion LogStreamBatchResponse) (m : modal) : modal :=
  match r with
  | Return response =>
      {| m_logs :=
           if (0 <? length (logs response))%nat
           then m_logs m ++ logs response
           else m_logs m;
         isLoading := isLoading m;
         error := error m;
         sinceMsRef :=
           if cursor_truthy (next_since_ms response)
           then next_since_ms response
           else sinceMsRef m |}
  | Throw _ => m
  end.

(** A timer firing: [poll] runs only while the interval is installed. *)
Definition on_interval (r : completion LogStreamBatchResponse) (m : modal) : modal :=
  if polling m then poll r m else m.

Definition run_polls (rs : list (completion LogStreamBatchResponse))
    (m : modal) : modal :=
  foldl (fun m r => on_interval r m) m rs.

End LogStreamModal.

(** ** [ui/components/StatusIndicator.tsx] *)

Module StatusIndicator.

(** [s.padStart(2, '0')]. *)
Definition padStart2 (s : string) : string :=
  match String.length s with
  | O => "00" +:+ s
  | S O => "0" +:+ s
  | _ => s
  end.

(** [updateDuration], with [startTime.getTime() = start] and
    [now.getTime() = now]. *)
Definition diffSeconds (start now : Z) : Z :=
  Z.max 0 ((now - start) / 1000).

Definition hours (d : Z) : string := padStart2 (Number_toString (d / 3600)).
Definition minutes (d : Z) : string := padStart2 (Number_toString ((d mod 3600) / 60)).
Definition seconds (d : Z) : string := padStart2 (Number_toString (d mod 60)).

Definition updateDuration (start now : Z) : string :=
  let d := diffSeconds start now in
  hours d +:+ ":" +:+ minutes d +:+ ":" +:+ seconds d.

Definition isConnected (st : option ServerStatusResponse) : bool :=
  match st with
  | Some s => ServerStatus_eqb (status s) RUNNING
  | None => false
  end.

(** A string of decimal digits only: no sign. *)
Definition is_digit (c : ascii) : bool :=
  ((48 <=? nat_of_ascii c) && (nat_of_ascii c <=? 57))%nat.

Fixpoint all_digits (s : string) : bool :=
  match s with
  | EmptyString => true
  | String c rest => is_digit c && all_digits rest
  end.

(** The padded decimal of [k] has exactly two characters. *)
Definition two_chars (k : nat) : bool :=
  (String.length (padStart2 (Number_toString (Z.of_nat k))) =? 2)%nat.

Section Duration.

(** [new Date(s).getTime()]; [None] is [NaN]. *)
Variable Date_getTime : string -> option Z.

(** The value the duration effect leaves in the [duration] hook when the
    last update ran at [now]. *)
Definition duration (st : option ServerStatusResponse) (now : Z) : string :=
  match st with
  | Some s =>
      if isConnected st then
        match start_time s with
        | Some iso =>
            if String.eqb iso EmptyString then EmptyString
            else match Date_getTime iso with
                 | None => EmptyString
                 | Some start => updateDuration start now
                 end
        | None => EmptyString
        end
      else EmptyString
  | None => EmptyString
  end.

End Duration.

End StatusIndicator.

(** ** The Python side of the bridge

    None of [app/ops], [app/services] is among the sources at hand; the
    definitions below follow the specification (sections 4 and 6) and
    [docs/API.md]. *)

Module Bridge.

(** Modelled from the spec: the bridge wrapper around every exposed
    operation (section 6 and the global error model of [docs/API.md]). An
    operation completes with its payload or fails with a message and optional
    details. *)
Inductive outcome : Type :=
| Completed (payload : value)
| Failed (message : string) (data : option (list (string * value))).

(** Modelled from the spec: the uniform failure envelope
    [{success: false, message, data?}]. *)
Definition envelope (message : string) (data : option (list (string * value))) : value :=
  VObj ([("success", VBool false); ("message", VStr message)]
        ++ match data with
           | Some d => [("data", VObj d)]
           | None => []
           end).

(** Modelled from the spec: what the UI's [await api[method](...)] completes
    with; a failure is returned as the envelope. *)
Definition respond (o : outcome) : completion value :=
  match o with
  | Completed payload => Return payload
  | Failed message data => Return (envelope message data)
  end.

End Bridge.

Module LogBuffer.

(** Modelled from the spec: a buffered line with its arrival time in
    milliseconds (section 3, LogEntry). *)
Record entry : Type := {
  at_ms : Z;
  line : LogEntry
}.

(** Modelled from the spec: [append] with a fixed maximum entry count, the
    oldest dropped first (section 4.4). *)
Definition append (capacity : nat) (e : entry) (buf : list entry) : list entry :=
  let buf' := buf ++ [e] in
  drop (length buf' - capacity) buf'.




End LogBuffer.

Module Tester.

(** Modelled from the spec: a candidate server, its connection parameters an
    opaque blob (section 3). *)
Record Server : Type := {
  id : string;
  server_remarks : string;
  params : string
}.

(** Modelled from the spec: what one probe observes (section 4.5): the two
    ephemeral ports it held and a round-trip time or an error. *)
Record probe : Type := {
  probe_socks : Z;
  probe_http : Z;
  probe_result : string + Z
}.

(** Modelled from the spec: the TestResult recorded for one server. *)
Definition record_result (s : Server) (p : probe) : ServerTestResult :=
  {| test_server_id := id s;
     test_remarks := server_remarks s;
     success := match probe_result p with inr _ => true | inl _ => false end;
     ping_ms := match probe_result p with inr ms => Some ms | inl _ => None end;
     test_error := match probe_result p with inr _ => None | inl e => Some e end;
     socks_port := probe_socks p;
     http_port := probe_http p |}.

(** Modelled from the spec: [testAll(servers)], one result per input server
    in input order; each probe is an isolated failure domain, so what the
    probe of the server at position [i] observes, [run i s], does not depend
    on the other probes nor on the order in which the fan-out finishes
    them. *)
Definition testAll (run : nat -> Server -> probe) (servers : list Server)
    : list ServerTestResult :=
  imap (fun i s => record_result s (run i s)) servers.

Definition tests_text : string := "Server tests completed".

(** Modelled from the spec: [test_subscription_servers(id)] (section 6); the
    aggregate counts are computed from the per-result booleans. The wording
    of [message] is not fixed by the spec. *)
Definition test_subscription_servers (run : nat -> Server -> probe)
    (sub_id sub_name : string) (servers : list Server)
    : SubscriptionUrlTestResponse :=
  let rs := testAll run servers in
  {| test_message := tests_text;
     subscription_id := sub_id;
     subscription_name := sub_name;
     total_servers := length servers;
     successful_tests := length (filter (fun r => success r = true) rs);
     failed_tests := length (filter (fun r => success r = false) rs);
     results := rs |}.

End Tester.


Module Facade.

(** Modelled from the spec: the state machine of one supervised process
    (section 4.3). *)
Inductive proc_state : Type :=
| Idle | Starting | Running | Stopping | Stopped | Crashed.

#[global] Instance proc_state_eq_dec : EqDecision proc_state.
Proof. solve_decision. Defined.

(** Modelled from the spec: the ActiveConnection singleton (section 3). *)
Record connection : Type := {
  conn_handle : nat;
  conn_server_id : string;
  conn_remarks : string;
  conn_pid : Z;
  conn_start_time : string;
  conn_ports : list AllocatedPort
}.

(** Modelled from the spec: the facade owns the nullable ActiveConnection,
    the main handles the supervisor has issued with the state of each, and
    the derived status (sections 3 and 4.7). *)
Record facade : Type := {
  active : option connection;
  handles : gmap nat proc_state;
  derived : ServerStatus
}.

(** Modelled from the spec: nothing has been started yet. *)
Definition init : facade :=
  {| active := None; handles := ∅; derived := STOPPED |}.

(** Modelled from the spec: why [start] can fail (section 4.3). *)
Inductive start_failure : Type :=
| BinaryNotFound
| StartupTimeout
| ProcessExitedEarly (code : Z).

(** Modelled from the spec: what a successful [start] yields (section 4.3,
    section 3): the process id, the start time and the allocated ports. *)
Record started : Type := {
  new_pid : Z;
  new_start_time : string;
  new_ports : list AllocatedPort
}.

(** Modelled from the spec: message texts. [docs/API.md] fixes those of
    [stop_server]; of the others the spec asks only that they are human
    readable (section 7), so they are named here and no statement depends on
    their wording. *)
Definition failure_message (f : start_failure) : string :=
  match f with
  | BinaryNotFound => "Xray binary not found"
  | StartupTimeout => "Xray did not become ready in time"
  | ProcessExitedEarly _ => "Xray exited during startup"
  end.

Definition started_text : string := "Server started successfully".
Definition already_running_text : string := "Server is already running".
Definition stop_failed_text : string := "Failed to stop the running server".

Definition opt_str (o : option string) : value :=
  match o with Some s => VStr s | None => VNull end.

(** Modelled from the spec: the answer of [start_server],
    [{message, server_id, status: "running", remarks}] ([docs/API.md]). *)
Definition start_response (msg sid remarks : string) : value :=
  VObj [("message", VStr msg); ("server_id", VStr sid);
        ("status", VStr "running"); ("remarks", VStr remarks)].

(** Modelled from the spec: the two success shapes of [stop_server] in
    [docs/API.md]. *)
Definition stop_response (sid : option string) : value :=
  VObj [("message", VStr match sid with
                         | Some _ => "Server stopped successfully"
                         | None => "No server is currently running"
                         end);
        ("server_id", opt_str sid);
        ("status", VStr "stopped")].

(** Modelled from the spec: [poll(Handle)], the liveness of the process of
    a connection (section 4.3). *)
Definition is_running (c : connection) (s : facade) : bool :=
  match handles s !! conn_handle c with
  | Some Running => true
  | _ => false
  end.

(** Modelled from the spec: [stop(Handle)] on the active connection
    (section 4.3): graceful termination, then the process is gone and the
    reference dropped; a process that is not running is only forgotten. The
    list holds the successive states an observer can see. *)
Definition stop_trace (c : connection) (s : facade) : list facade :=
  if is_running c s then
    [ {| active := active s;
         handles := <[conn_handle c := Stopping]> (handles s);
         derived := derived s |};
      {| active := None;
         handles := <[conn_handle c := Stopped]> (handles s);
         derived := STOPPED |} ]
  else
    [ {| active := None; handles := handles s; derived := STOPPED |} ].

Definition final (s : facade) (trace : list facade) : facade :=
  default s (last trace).

(** Modelled from the spec: [stopServer()] (section 4.7; [stop_server] of
    section 6 and of [docs/API.md], with its two success shapes and its
    error answer). It is safe with nothing running. With a connection
    active, [stop_ok] tells whether stopping it succeeded; as in
    [startServer] below, a failed stop is answered with the failure envelope
    and leaves the connection in place with status [error] (section 7). *)
Definition stopServer (stop_ok : bool) (s : facade)
    : list facade * Bridge.outcome :=
  match active s with
  | None => ([], Bridge.Completed (stop_response None))
  | Some c =>
      if stop_ok then
        (stop_trace c s,
         Bridge.Completed (stop_response (Some (conn_server_id c))))
      else
        ([ {| active := active s; handles := handles s; derived := ERROR |} ],
         Bridge.Failed stop_failed_text None)
  end.



(** Modelled from the spec: the start sequence of section 4.3 on a fresh
    handle; on failure the partially started process is killed. *)
Definition spawn (sid remarks : string) (boot : start_failure + started)
    (s : facade) : list facade * Bridge.outcome :=
  let h := fresh (dom (handles s)) in
  let starting :=
    {| active := active s;
       handles := <[h := Starting]> (handles s);
       derived := derived s |} in
  match boot with
  | inr st =>
      ([ starting;
         {| active := Some {| conn_handle := h; conn_server_id := sid;
                              conn_remarks := remarks; conn_pid := new_pid st;
                              conn_start_time := new_start_time st;
                              conn_ports := new_ports st |};
            handles := <[h := Running]> (handles s);
            derived := RUNNING |} ],
       Bridge.Completed (start_response started_text sid remarks))
  | inl f =>
      ([ starting;
         {| active := active s;
            handles := <[h := Stopped]> (handles s);
            derived := STOPPED |} ],
       Bridge.Failed (failure_message f) None)
  end.

(** Modelled from the spec: [startServer(serverId)] (section 4.7). All
    calls are serialised by the facade's lock, so a call sees the state the
    previous one left. An existing connection is stopped first; [stop_ok]
    tells whether that stop succeeded, and a failed stop aborts the start
    with status [error]. A request for the server that is already running is
    answered with the same shape and an informative message
    ([docs/API.md]). *)
Definition startServer (sid remarks : string) (stop_ok : bool)
    (boot : start_failure + started) (s : facade)
    : list facade * Bridge.outcome :=
  match active s with
  | None => spawn sid remarks boot s
  | Some c =>
      if String.eqb (conn_server_id c) sid && is_running c s then
        ([], Bridge.Completed
               (start_response already_running_text sid (conn_remarks c)))
      else if stop_ok then
        let stopped := stop_trace c s in
        let r := spawn sid remarks boot (final s stopped) in
        (stopped ++ r.1, r.2)
      else
        ([ {| active := active s; handles := handles s; derived := ERROR |} ],
         Bridge.Failed stop_failed_text None)
  end.

(** Modelled from the spec: the unexpected exit of the main process,
    [Running -> Crashed] (section 4.3). *)
Definition crash (s : facade) : facade :=
  match active s with
  | Some c =>
      if is_running c s then
        {| active := active s;
           handles := <[conn_handle c := Crashed]> (handles s);
           derived := derived s |}
      else s
  | None => s
  end.

(** Modelled from the spec: the events that change the ActiveConnection. *)
Inductive call : Type :=
| StartServer (sid remarks : string) (stop_ok : bool)
    (boot : start_failure + started)
| StopServer (stop_ok : bool)
| Crash.

(** The states a call runs through, in order. *)
Definition exec (c : call) (s : facade) : list facade :=
  match c with
  | StartServer sid remarks stop_ok boot =>
      (startServer sid remarks stop_ok boot s).1
  | StopServer stop_ok => (stopServer stop_ok s).1
  | Crash => [crash s]
  end.

(** Every state seen while the calls [cs] run one after the other. *)
Fixpoint observe (cs : list call) (s : facade) : list facade :=
  match cs with
  | [] => []
  | c :: rest =>
      let trace := exec c s in
      trace ++ observe rest (final s trace)
  end.

Definition running_handles (s : facade) : list nat :=
  (map_to_list (filter (fun kv => kv.2 = Running) (handles s))).*1.

(** A running process is the one the ActiveConnection refers to. *)
Definition owned (s : facade) : Prop :=
  forall h, handles s !! h = Some Running ->
            exists c, active s = Some c /\ conn_handle c = h.

Definition not_running (h : nat) (s : facade) : Prop :=
  handles s !! h <> Some Running.

(** The ActiveConnection refers to a handle the supervisor has issued. *)
Definition registered (s : facade) : Prop :=
  forall c, active s = Some c -> is_Some (handles s !! conn_handle c).

(** The state in which the calls [cs], run one after the other, leave [s]. *)
Definition after (cs : list call) (s : facade) : facade :=
  foldl (fun s c => final s (exec c s)) s cs.

End Facade.

(** ** Concrete inputs used to exercise the statements below *)

Module Samples.

Definition empty_message : value :=
  VObj [("success", VBool false); ("message", VStr EmptyString)].

Definition not_found : value :=
  VObj [("success", VBool false); ("message", VStr "Subscription not found");
        ("data", VObj [("id", VStr "s1")])].

Definition stopped_payload : value := Facade.stop_response None.

(** A bridge whose every method answers with [res]. *)
Definition answering (res : value) : Api.api_object :=
  fun _ => Some (fun _ => Return res).

Definition running_since (iso : string) : ServerStatusResponse :=
  {| status_message := "Server is running"; server_id := Some "srv";
     status := RUNNING; remarks := Some "Frankfurt";
     process_id := Some 4242; start_time := Some iso;
     allocated_ports := Some [] |}.

Definition stopped_status : ServerStatusResponse :=
  {| status_message := "No server is currently running"; server_id := None;
     status := STOPPED; remarks := None; process_id := None;
     start_time := None; allocated_ports := None |}.

(** A clock that reads the number of milliseconds out of ["t=1000"] only. *)
Definition getTime_1000 (iso : string) : option Z :=
  if String.eqb iso "t=1000" then Some 1000 else None.

Definition entry_at (t : Z) (text : string) : LogBuffer.entry :=
  {| LogBuffer.at_ms := t;
     LogBuffer.line := {| timestamp := "1970-01-01T00:00:00"; message := text |} |}.

Definition open_modal : LogStreamModal.modal :=
  {| LogStreamModal.m_logs := [];
     LogStreamModal.isLoading := false;
     LogStreamModal.error := None;
     LogStreamModal.sinceMsRef := Some 500 |}.

Definition boot_ok : Facade.started :=
  {| Facade.new_pid := 4242; Facade.new_start_time := "2025-01-01T00:00:00";
     Facade.new_ports := [ {| port := 1080; protocol := "socks"; tag := "socks" |};
                           {| port := 8080; protocol := "http"; tag := "http" |} ] |}.

Definition start_a : Facade.call :=
  Facade.StartServer "a" "A" true (inr boot_ok).

Definition start_b : Facade.call :=
  Facade.StartServer "b" "B" true (inr boot_ok).


Definition conn_a : Facade.connection :=
  {| Facade.conn_handle := 0; Facade.conn_server_id := "a";
     Facade.conn_remarks := "A"; Facade.conn_pid := 4242;
     Facade.conn_start_time := "2025-01-01T00:00:00";
     Facade.conn_ports := Facade.new_ports boot_ok |}.


(** [ensureApiReady()] called at time 0 before the bridge is there. *)
Definition waiting : Api.runtime :=
  Api.run [Api.Call Api.default_timeout 0 None] Api.boot.

(** ... and the timer firing after more than ten seconds. *)
Definition timed_out : Api.runtime :=
  Api.run [Api.Call Api.default_timeout 0 None; Api.Tick 0 10100 None] Api.boot.

End Samples.

(** ** The rest of the front end

    [renderLogs] of [LogStreamModal.tsx]; the button, the texts and the
    connect animation of [StatusIndicator.tsx]; [waitForApi] of [index.tsx];
    the provider and the two DOM effects of [contexts/ThemeContext.tsx];
    and [await] on the promise of [ensureApiReady]. *)

Module LogStreamView.

Import LogStreamModal.

(** What [renderLogs] returns: the spinner, the error text, the line
    ["No log entries found."], or one row per log, keyed by its index. *)
Inductive view : Type :=
| Spinner
| ErrorText (msg : string)
| NoEntries
| Rows (rows : list (nat * LogEntry)).

(** [if (error)] on the [error] hook. *)
Definition error_truthy (e : option string) : bool :=
  match e with
  | Some msg => negb (String.eqb msg EmptyString)
  | None => false
  end.

Definition renderLogs (m : modal) : view :=
  if isLoading m then Spinner
  else if error_truthy (error m) then ErrorText (default EmptyString (error m))
  else if (length (m_logs m) =? 0)%nat then NoEntries
  else Rows (imap (fun index log => (index, log)) (m_logs m)).

(** The entries of the batches that arrived, in arrival order. *)
Definition delivered (rs : list (completion LogStreamBatchResponse))
    : list LogEntry :=
  concat (map (fun r => match r with
                        | Return response => logs response
                        | Throw _ => []
                        end) rs).

(** The cursors the answers offered that pass [if (response.next_since_ms)],
    in arrival order. *)
Definition offered (rs : list (completion LogStreamBatchResponse)) : list Z :=
  omap (fun r => match r with
                 | Return response =>
                     if cursor_truthy (next_since_ms response)
                     then next_since_ms response else None
                 | Throw _ => None
                 end) rs.

End LogStreamView.

Module StatusButton.

Import StatusIndicator.

Inductive action : Type := OnStop | OnConnect.

Definition getStatusText (isConnecting : bool)
    (st : option ServerStatusResponse) : string :=
  if isConnecting then "Connecting..."
  else match st with
       | None => "Checking Status..."
       | Some s =>
           match status s with
           | RUNNING => "Connected"
           | STOPPED => "Not Connected"
           | ERROR => "Connection Error"
           end
       end.

Definition handleMainButtonClick (st : option ServerStatusResponse) : action :=
  if isConnected st then OnStop else OnConnect.

(** The [disabled] and [aria-label] attributes of the button. *)
Definition button_disabled (isConnecting : bool) : bool := isConnecting.

Definition aria_label (st : option ServerStatusResponse) : string :=
  if isConnected st then "Disconnect" else "Connect".

Definition getButtonStateClasses (isConnecting : bool)
    (st : option ServerStatusResponse) (isFreshlyConnected : bool) : string :=
  if isConnecting then "bg-muted text-foreground animate-pulse cursor-wait"
  else if isConnected st then
    "bg-success text-primary-foreground shadow-lg shadow-success/40 hover:bg-success/90 "
    +:+ (if isFreshlyConnected then "animate-fast-pulse" else EmptyString)
  else "bg-secondary text-secondary-foreground shadow-md hover:bg-secondary/80".

(** The duration chip: its visibility class and its [aria-hidden]. *)
Definition duration_shown (st : option ServerStatusResponse) (duration : string)
    : bool :=
  isConnected st && negb (String.eqb duration EmptyString).

Definition duration_aria_hidden (st : option ServerStatusResponse)
    (duration : string) : bool :=
  negb (isConnected st) || String.eqb duration EmptyString.

(** The value of a string of decimal digits, leading zeros allowed. *)
Definition decimal_value (s : string) : option Z :=
  (fun d => Z.of_N (N.of_uint d)) <$> NilEmpty.uint_of_string s.

(** *** The connect animation

    The hooks [isFreshlyConnected] and [prevIsConnected], the prop
    [isConnected] as last rendered, and whether the 2000 ms timeout of the
    last effect run is still pending. The effect depends on [isConnected]
    alone: it runs when that value changes, after the clean-up the previous
    run returned. *)
Record pulse : Type := {
  connected : bool;
  isFreshlyConnected : bool;
  prevIsConnected : bool;
  timer : bool
}.

(** First render: [useRef(isConnected)], then the effect. *)
Definition mount (isConnected : bool) : pulse :=
  {| connected := isConnected; isFreshlyConnected := false;
     prevIsConnected := isConnected; timer := false |}.

(** A render with the prop [isConnected]. *)
Definition on_status (isConnected : bool) (p : pulse) : pulse :=
  if Bool.eqb isConnected (connected p) then p
  else if negb (prevIsConnected p) && isConnected then
    {| connected := isConnected; isFreshlyConnected := true;
       prevIsConnected := prevIsConnected p; timer := true |}
  else
    {| connected := isConnected; isFreshlyConnected := isFreshlyConnected p;
       prevIsConnected := isConnected; timer := false |}.

(** The timeout callback, if the timeout has not been cleared. *)
Definition on_timeout (p : pulse) : pulse :=
  if timer p then
    {| connected := connected p; isFreshlyConnected := false;
       prevIsConnected := prevIsConnected p; timer := false |}
  else p.

Inductive pulse_event : Type :=
| Status (isConnected : bool)
| Timeout.

Definition pulse_step (e : pulse_event) (p : pulse) : pulse :=
  match e with
  | Status b => on_status b p
  | Timeout => on_timeout p
  end.

Definition pulse_run (es : list pulse_event) (p : pulse) : pulse :=
  foldl (fun p e => pulse_step e p) p es.

(** The button shows the fast pulse. *)
Definition pulsing (p : pulse) : bool := connected p && isFreshlyConnected p.

End StatusButton.

(** ** [index.tsx] *)

Module Bootstrap.

Definition MAX_WAIT_TIME : Z := 5000.
Definition POLL_INTERVAL : Z := 100.

Inductive screen : Type :=
| Waiting
| AppScreen
| ErrorScreen (message : string).

Definition error_text : string :=
  "Could not start application. Please restart Nabzram.".

(** [waitForApi], called at the successive times [now] with
    [window.pywebview && window.pywebview.api] truthy or not; it is called
    again only through the [setTimeout] of its last branch. *)
Fixpoint waitForApi (startTime : Z) (checks : list (Z * bool)) : screen :=
  match checks with
  | [] => Waiting
  | (now, api) :: rest =>
      if api then AppScreen
      else if MAX_WAIT_TIME <? now - startTime then ErrorScreen error_text
      else waitForApi startTime rest
  end.

(** Every check so far found no bridge and was within the deadline. *)
Definition kept_waiting (startTime : Z) (checks : list (Z * bool)) : Prop :=
  Forall (fun c => c.2 = false /\ c.1 - startTime <= MAX_WAIT_TIME) checks.

End Bootstrap.

(** ** [contexts/ThemeContext.tsx] *)

Module ThemeContext.

Record Theme : Type := {
  name : string;
  colors : list (string * string)
}.

(** The answer of [get_appearance]; [a_font] is [None] when the object has
    no own property [font]. *)
Record appearance : Type := {
  a_theme : option string;
  a_font : option (option string)
}.

(** A payload of [api.updateAppearance]. *)
Inductive saved : Type :=
| SaveTheme (theme : string)
| SaveFont (font : string).

(** The provider: the two hooks, whether [window.frontendApi] is installed,
    and the payloads sent to the backend so far. *)
Record provider : Type := {
  theme : string;
  font : string;
  frontendApi : bool;
  sent : list saved
}.

Definition initial : provider :=
  {| theme := "slate"; font := EmptyString; frontendApi := false; sent := [] |}.

Definition DEFAULT_FONT : string := "Asap".

Definition linkId : string := "google-font-dynamic-link".

Inductive ui_event : Type :=
| Initialized (r : completion (option appearance))
| PushTheme (themeName : string)
| PushFont (fontName : string)
| SetTheme (newTheme : string)
| SetFont (newFont : string).

(** [font.replace(/ /g, '+')]. *)
Fixpoint replace_spaces (s : string) : string :=
  match s with
  | EmptyString => EmptyString
  | String c rest =>
      String (if Ascii.eqb c " "%char then "+"%char else c) (replace_spaces rest)
  end.

(** The inverse reading of a query component: ['+'] stands for a space. *)
Fixpoint plus_to_space (s : string) : string :=
  match s with
  | EmptyString => EmptyString
  | String c rest =>
      String (if Ascii.eqb c "+"%char then " "%char else c) (plus_to_space rest)
  end.

Fixpoint has_char (a : ascii) (s : string) : bool :=
  match s with
  | EmptyString => false
  | String c rest => Ascii.eqb c a || has_char a rest
  end.

Definition font_href (font : string) : string :=
  "https://fonts.googleapis.com/css2?family=" +:+ replace_spaces font
  +:+ ":wght@400;500;600;700&display=swap".

(** A class token [classList] accepts: not empty, free of ASCII white
    space; any other argument makes [add] and [remove] throw. *)
Definition is_space (c : ascii) : bool :=
  let n := nat_of_ascii c in
  ((n =? 9) || (n =? 10) || (n =? 12) || (n =? 13) || (n =? 32))%nat.

Fixpoint has_space (s : string) : bool :=
  match s with
  | EmptyString => false
  | String c rest => is_space c || has_space rest
  end.

Definition valid_token (s : string) : bool :=
  negb (String.eqb s EmptyString) && negb (has_space s).

Section Provider.

(** The imported list [themes] of [styles/themes], [String.prototype.trim],
    and the inline style of the root element with its [setProperty]. *)
Variable themes : list Theme.
Variable trim : string -> string.
Variable style : Type.
Variable setProperty : string -> string -> style -> style.

(** [themes.some(t => t.name === n)]. *)
Definition is_theme (n : string) : bool :=
  existsb (fun t => String.eqb (name t) n) themes.

(** [initializeAppearance], from the completion of [api.getAppearance()]. *)
Definition initializeAppearance (r : completion (option appearance))
    (p : provider) : provider :=
  match r with
  | Return (Some a) =>
      {| theme := match a_theme a with
                  | Some t =>
                      if negb (String.eqb t EmptyString) && is_theme t
                      then t else theme p
                  | None => theme p
                  end;
         font := match a_font a with
                 | Some f => default EmptyString f
                 | None => font p
                 end;
         frontendApi := true;
         sent := sent p |}
  | _ =>
      {| theme := theme p; font := font p; frontendApi := true;
         sent := sent p |}
  end.

(** One event of the provider's life. A push from the backend goes through
    [window.frontendApi], which does not exist before [initializeAppearance]
    has finished; [setTheme] and [setFont] are the functions handed to the
    UI. *)
Definition handle (e : ui_event) (p : provider) : provider :=
  match e with
  | Initialized r => initializeAppearance r p
  | PushTheme themeName =>
      if frontendApi p && is_theme themeName then
        {| theme := themeName; font := font p; frontendApi := frontendApi p;
           sent := sent p |}
      else p
  | PushFont fontName =>
      if frontendApi p then
        {| theme := theme p; font := fontName; frontendApi := frontendApi p;
           sent := sent p |}
      else p
  | SetTheme newTheme =>
      if is_theme newTheme then
        {| theme := newTheme; font := font p; frontendApi := frontendApi p;
           sent := sent p ++ [SaveTheme newTheme] |}
      else p
  | SetFont newFont =>
      {| theme := theme p; font := trim newFont; frontendApi := frontendApi p;
         sent := sent p ++ [SaveFont (trim newFont)] |}
  end.

Definition handle_all (es : list ui_event) (p : provider) : provider :=
  foldl (fun p e => handle e p) p es.

(** The root element and the head of the document, as far as the two
    effects touch them: the class tokens in order, the inline style, and the
    [href] of the link element with id [linkId], if there is one. *)
Record dom : Type := {
  classList : list string;
  root_style : style;
  font_link : option string
}.

(** [themes.find(t => t.name === theme) ?? themes[0]]. *)
Definition selectedTheme (theme : string) : option Theme :=
  match find (fun t => String.eqb (name t) theme) themes with
  | Some t => Some t
  | None => head themes
  end.

(** [classList.add(token)]. *)
Definition add_token (token : string) (l : list string) : list string :=
  if existsb (String.eqb token) l then l else l ++ [token].

(** [classList.remove(...tokens)]. *)
Definition remove_tokens (tokens l : list string) : list string :=
  List.filter (fun c => negb (existsb (String.eqb c) tokens)) l.

(** The theme effect; [None] when it throws (a theme name that is no class
    token, or no theme at all). *)
Definition apply_theme (theme : string) (d : dom) : option dom :=
  if forallb valid_token (map name themes) then
    match selectedTheme theme with
    | Some t =>
        Some {| classList :=
                  add_token (name t)
                    (remove_tokens (map name themes) (classList d));
                root_style :=
                  foldl (fun s kv => setProperty kv.1 kv.2 s)
                        (root_style d) (colors t);
                font_link := font_link d |}
    | None => None
    end
  else None.

(** The font effect. *)
Definition apply_font (font : string) (d : dom) : dom :=
  if negb (String.eqb font EmptyString) then
    {| classList := classList d;
       root_style := setProperty "--font-sans" font (root_style d);
       font_link := Some (font_href font) |}
  else
    {| classList := classList d;
       root_style := setProperty "--font-sans" DEFAULT_FONT (root_style d);
       font_link := None |}.

(** A payload that names a theme names one of [themes]; a payload that
    names a font carries a trimmed text. *)
Definition saved_ok (s : saved) : Prop :=
  match s with
  | SaveTheme t => is_theme t = true
  | SaveFont f => exists newFont, f = trim newFont
  end.

End Provider.

Arguments classList {style} d.
Arguments root_style {style} d.
Arguments font_link {style} d.
Arguments apply_theme themes {style} setProperty theme d.
Arguments apply_font {style} setProperty font d.

End ThemeContext.

(** ** [await] on the promise of [ensureApiReady] *)

Module ApiCalls.

Import Api.

(** What [await p] completes with; [None] while [p] is pending. *)
Definition await (w : runtime) (p : nat)
    : option (completion (option api_object)) :=
  match promises w !! p with
  | Some (Fulfilled api) => Some (Return (Some api))
  | Some (Rejected m) => Some (Throw m)
  | _ => None
  end.

(** [callApp] resumed on the promise [p]. *)
Definition callApp_on (w : runtime) (p : nat) (method : string)
    (args : list value) : option (completion value) :=
  (fun ready => callApp ready method args) <$> await w p.

Definition calls (es : list event) : nat :=
  length (List.filter (fun e => match e with Call _ _ _ => true | _ => false end) es).


(** Every rejected promise carries the timeout message. *)
Definition only_timeouts (w : runtime) : Prop :=
  forall p m, promises w !! p = Some (Rejected m) -> m = timeout_message.

End ApiCalls.

Module Samples2.

Definition slate : ThemeContext.Theme :=
  {| ThemeContext.name := "slate";
     ThemeContext.colors := [("--background", "222 84% 5%")] |}.

Definition rose : ThemeContext.Theme :=
  {| ThemeContext.name := "rose";
     ThemeContext.colors := [("--background", "0 0% 100%")] |}.

Definition two_themes : list ThemeContext.Theme := [slate; rose].

(** A root element whose inline style is not looked at. *)
Definition keep_style (key value : string) (s : unit) : unit := s.

Definition dark_slate : ThemeContext.dom unit :=
  {| ThemeContext.classList := ["dark"; "slate"];
     ThemeContext.root_style := tt;
     ThemeContext.font_link := None |}.

Definition dark_rose : ThemeContext.dom unit :=
  {| ThemeContext.classList := ["dark"; "rose"];
     ThemeContext.root_style := tt;
     ThemeContext.font_link := None |}.

Definition no_trim (s : string) : string := s.

Definition line_dial : LogEntry :=
  {| timestamp := "2025-01-01T00:00:01"; message := "dial" |}.

Definition line_ok : LogEntry :=
  {| timestamp := "2025-01-01T00:00:02"; message := "ok" |}.

Definition batch (l : list LogEntry) (next : option Z) : LogStreamBatchResponse :=
  {| batch_message := "ok"; batch_server_id := Some "a"; logs := l;
     next_since_ms := next |}.

(** Three polls: a batch, a failure, a batch. *)
Definition three_polls : list (completion LogStreamBatchResponse) :=
  [Return (batch [line_dial] (Some 700)); Throw "bridge gone";
   Return (batch [line_ok] (Some 900))].

Definition failed_modal : LogStreamModal.modal :=
  LogStreamModal.fetchInitialLogs (Throw "boom") 0 LogStreamModal.mount.







End Samples2.

(** * Properties *)

(** ** The duration display of [StatusIndicator] *)

Section DurationFacts.

Import StatusIndicator.

Lemma string_of_uint_all_digits (d : Decimal.uint) :
  all_digits (NilEmpty.string_of_uint d) = true.
Proof. induction d; simpl; auto. Qed.

Lemma Number_toString_all_digits (n : Z) :
  0 <= n -> all_digits (Number_toString n) = true.
Proof.
  intros Hn. unfold Number_toString.
  destruct n as [|p|p]; simpl; try lia; apply string_of_uint_all_digits.
Qed.

Lemma padStart2_all_digits (s : string) :
  all_digits s = true -> all_digits (padStart2 s) = true.
Proof.
  intros Hs. unfold padStart2.
  destruct s as [|a [|b t]]; simpl in *; auto.
Qed.

Lemma padStart2_length_ge (s : string) : (2 <= String.length (padStart2 s))%nat.
Proof.
  unfold padStart2. destruct s as [|a [|b t]]; simpl; lia.
Qed.

Lemma two_chars_below_100 : forallb two_chars (seq 0 100) = true.
Proof. vm_compute. reflexivity. Qed.

Lemma padStart2_length_small (n : Z) :
  0 <= n < 100 -> String.length (padStart2 (Number_toString n)) = 2%nat.
Proof.
  intros Hn.
  pose proof two_chars_below_100 as H.
  rewrite forallb_forall in H.
  specialize (H (Z.to_nat n)).
  unfold two_chars in H. rewrite Z2Nat.id in H by lia.
  apply Nat.eqb_eq, H, in_seq. lia.
Qed.

Lemma diffSeconds_nonneg (start now : Z) : 0 <= diffSeconds start now.
Proof. unfold diffSeconds. lia. Qed.

Lemma diffSeconds_split (d : Z) :
  0 <= d ->
  0 <= d / 3600 /\ 0 <= d mod 3600 / 60 < 60 /\ 0 <= d mod 60 < 60 /\
  d = d / 3600 * 3600 + d mod 3600 / 60 * 60 + d mod 60.
Proof.
  intros Hd.
  pose proof (Z.mod_pos_bound d 3600 ltac:(lia)).
  pose proof (Z.mod_pos_bound d 60 ltac:(lia)).
  pose proof (Z.div_mod d 3600 ltac:(lia)).
  pose proof (Z.div_mod (d mod 3600) 60 ltac:(lia)).
  assert (d mod 3600 mod 60 = d mod 60).
  { replace 3600 with (60 * 60) by lia. rewrite Z.rem_mul_r by lia.
    rewrite Z.add_mod by lia. rewrite Z.mul_comm, Z.mod_mul by lia.
    rewrite Z.add_0_r. rewrite !Z.mod_mod by lia. reflexivity. }
  assert (0 <= d / 3600) by (apply Z.div_pos; lia).
  assert (0 <= d mod 3600 / 60) by (apply Z.div_pos; lia).
  assert (d mod 3600 / 60 < 60) by (apply Z.div_lt_upper_bound; lia).
  lia.
Qed.

Example updateDuration_one_hour : updateDuration 1000 3726500 = "01:02:05".
Proof. reflexivity. Qed.

Example updateDuration_clock_behind : updateDuration 5000 0 = "00:00:00".
Proof. reflexivity. Qed.

Example updateDuration_many_hours : updateDuration 0 360059999 = "100:00:59".
Proof. reflexivity. Qed.

Variable Date_getTime : string -> option Z.

(** C9. While the status is running and [start_time] parses to [start], the
    duration shown after an update at [now] is [hh:mm:ss] for
    [d = max(0, floor((now - start) / 1000))]: the three components are the
    decimal digits of [d / 3600], [(d mod 3600) / 60] and [d mod 60], each
    padded with a leading zero to at least two characters (minutes and
    seconds to exactly two), they add up to [d], and [d] is never negative.
    When [start_time] does not parse, or the status is not running, the
    duration is the empty string. *)
Theorem duration_display (st : ServerStatusResponse) (now : Z) :
  (forall iso start,
      status st = RUNNING -> start_time st = Some iso -> iso <> EmptyString ->
      Date_getTime iso = Some start ->
      let d := Z.max 0 ((now - start) / 1000) in
      let h := d / 3600 in
      let m := d mod 3600 / 60 in
      let s := d mod 60 in
      duration Date_getTime (Some st) now
      = padStart2 (Number_toString h) +:+ ":" +:+
        padStart2 (Number_toString m) +:+ ":" +:+
        padStart2 (Number_toString s)
      /\ 0 <= d /\ 0 <= h /\ 0 <= m < 60 /\ 0 <= s < 60
      /\ d = h * 3600 + m * 60 + s
      /\ all_digits (padStart2 (Number_toString h)) = true
      /\ all_digits (padStart2 (Number_toString m)) = true
      /\ all_digits (padStart2 (Number_toString s)) = true
      /\ (2 <= String.length (padStart2 (Number_toString h)))%nat
      /\ String.length (padStart2 (Number_toString m)) = 2%nat
      /\ String.length (padStart2 (Number_toString s)) = 2%nat)
  /\ (forall iso,
        start_time st = Some iso -> Date_getTime iso = None ->
        duration Date_getTime (Some st) now = EmptyString)
  /\ (status st <> RUNNING ->
      duration Date_getTime (Some st) now = EmptyString)
  /\ duration Date_getTime None now = EmptyString.
Proof.
  split; [|split; [|split]].
  - intros iso start Hrun Hiso Hne Hparse d h m s.
    pose proof (diffSeconds_split d ltac:(subst d; lia)) as (Hh & Hm & Hs & Hsum).
    split.
    { unfold duration, isConnected. rewrite Hrun, Hiso. simpl.
      destruct (String.eqb_spec iso EmptyString) as [->|_]; [congruence|].
      rewrite Hparse. reflexivity. }
    split; [subst d; lia|].
    repeat (split; [assumption|]).
    repeat (split; [apply padStart2_all_digits, Number_toString_all_digits; subst h m s; lia|]).
    split; [apply padStart2_length_ge|].
    split; apply padStart2_length_small; subst m s; lia.
  - intros iso Hs Hp. unfold duration. rewrite Hs, Hp.
    destruct (isConnected (Some st)); [|reflexivity].
    destruct (String.eqb iso EmptyString); reflexivity.
  - intros Hs. unfold duration, isConnected.
    destruct (status st); simpl; congruence.
  - reflexivity.
Qed.

End DurationFacts.

(** ** The log list and the cursor of [LogStreamModal] *)

Section LogStreamFacts.

Import LogStreamModal.

Lemma poll_logs_app (response : LogStreamBatchResponse) (m : modal) :
  m_logs (poll (Return response) m) = m_logs m ++ logs response.
Proof.
  simpl. destruct (logs response) as [|e es]; simpl.
  - by rewrite app_nil_r.
  - reflexivity.
Qed.

Lemma on_interval_extends (r : completion LogStreamBatchResponse) (m : modal) :
  m_logs m `prefix_of` m_logs (on_interval r m).
Proof.
  unfold on_interval. destruct (polling m); [|done].
  destruct r as [response|msg]; [|done].
  rewrite poll_logs_app. by apply prefix_app_r.
Qed.

Lemma run_polls_extends (rs : list (completion LogStreamBatchResponse)) :
  forall m, m_logs m `prefix_of` m_logs (run_polls rs m).
Proof.
  induction rs as [|r rs IH]; intros m; simpl; [done|].
  etrans; [apply (on_interval_extends r)|apply IH].
Qed.

(** C8. The list set by the initial snapshot is only ever extended at its
    end: a successful poll leaves [prevLogs ++ response.logs] (which is
    [prevLogs] for an empty batch), a failed poll leaves the list alone, and
    for any two polls of a session the list shown after the earlier one is a
    prefix of the list shown after the later one. *)
Theorem logs_append_only :
  (forall snap now,
      m_logs (fetchInitialLogs (Return snap) now mount) = snapshot_logs snap)
  /\ (forall m response,
        m_logs (poll (Return response) m) = m_logs m ++ logs response)
  /\ (forall m msg, poll (Throw msg) m = m)
  /\ (forall m rs rs',
        m_logs (run_polls rs m) `prefix_of` m_logs (run_polls (rs ++ rs') m)).
Proof.
  split; [done|]. split; [intros; apply poll_logs_app|]. split; [done|].
  intros m rs rs'. unfold run_polls at 2. rewrite foldl_app.
  apply run_polls_extends.
Qed.



Example poll_appends_and_advances :
  poll (Return {| batch_message := "ok"; batch_server_id := Some "a";
                  logs := [LogBuffer.line (Samples.entry_at 700 "dial")];
                  next_since_ms := Some 700 |}) Samples.open_modal
  = {| m_logs := [LogBuffer.line (Samples.entry_at 700 "dial")];
       isLoading := false; error := None; sinceMsRef := Some 700 |}.
Proof. reflexivity. Qed.

(** The test on [next_since_ms] is a truthiness test: [0] is not applied. *)
Example poll_zero_cursor :
  sinceMsRef (poll (Return {| batch_message := "ok"; batch_server_id := None;
                              logs := []; next_since_ms := Some 0 |})
                Samples.open_modal)
  = Some 500.
Proof. reflexivity. Qed.





End LogStreamFacts.

(** ** The memoised promise of [ensureApiReady] *)

Section ApiReadyFacts.

Import Api.

Example second_call_same_promise :
  (ensureApiReady default_timeout 0 None boot).1
  = (ensureApiReady default_timeout 50 None
       (ensureApiReady default_timeout 0 None boot).2).1
  /\ size (intervals (run [Call default_timeout 0 None;
                           Call default_timeout 50 None] boot)) = 1%nat.
Proof. split; reflexivity. Qed.

Example timer_keeps_waiting :
  tick 0 10000 None Samples.waiting = Samples.waiting.
Proof. reflexivity. Qed.

Lemma consistent_boot : consistent boot.
Proof.
  unfold consistent, boot; simpl.
  repeat split; intros; simplify_map_eq.
Qed.

Lemma no_timer_without_cache (w : runtime) :
  consistent w -> apiReadyPromise w = None -> forall i, intervals w !! i = None.
Proof.
  intros (H1 & _) Hc i.
  destruct (intervals w !! i) as [t|] eqn:Hi; [|done].
  destruct (H1 i t Hi) as [? _]. congruence.
Qed.

Lemma fresh_promise (w : runtime) :
  promises w !! fresh (dom (promises w)) = None.
Proof. apply not_elem_of_dom, is_fresh. Qed.

Lemma consistent_ensureApiReady (timeout now : Z) (win : option api_object)
    (w : runtime) :
  consistent w -> consistent (ensureApiReady timeout now win w).2.
Proof.
  intros Hw. unfold ensureApiReady.
  destruct (apiReadyPromise w) as [p|] eqn:Hc; [done|].
  pose proof (no_timer_without_cache w Hw Hc) as Hnone.
  set (p := fresh (dom (promises w))).
  destruct win as [api|]; unfold consistent, pending, fulfilled; simpl.
  - refine (conj _ (conj _ (conj _ _))).
    + intros i t Hi. by rewrite Hnone in Hi.
    + intros i j t u Hi. by rewrite Hnone in Hi.
    + intros q [= <-]. right. exists api. by rewrite lookup_insert_eq.
    + intros q [= <-]. rewrite lookup_insert_eq. done.
  - set (i0 := fresh (dom (intervals w))).
    set (t0 := {| poll_promise := p; poll_startTime := now;
                  poll_timeout := timeout |}).
    assert (forall i t, <[i0 := t0]> (intervals w) !! i = Some t ->
                        i = i0 /\ t = t0) as Honly.
    { intros i t Hi. destruct (decide (i = i0)) as [->|Hne].
      - rewrite lookup_insert_eq in Hi. by inversion Hi.
      - rewrite lookup_insert_ne in Hi by done. by rewrite Hnone in Hi. }
    refine (conj _ (conj _ (conj _ _))).
    + intros i t Hi. destruct (Honly i t Hi) as [-> ->]. simpl.
      by rewrite lookup_insert_eq.
    + intros i j t u Hi Hj.
      destruct (Honly i t Hi) as [-> _]. by destruct (Honly j u Hj) as [-> _].
    + intros q [= <-]. left. by rewrite lookup_insert_eq.
    + intros q [= <-] _. exists i0, t0. by rewrite lookup_insert_eq.
Qed.

Lemma consistent_tick (i : nat) (now : Z) (win : option api_object) (w : runtime) :
  consistent w -> consistent (tick i now win w).
Proof.
  intros Hw. unfold tick.
  destruct (intervals w !! i) as [t|] eqn:Hi; [|done].
  destruct Hw as (H1 & H2 & H3 & H4).
  destruct (H1 i t Hi) as [Hc Hp]. unfold pending in Hp.
  assert (forall j u, delete i (intervals w) !! j = Some u -> False) as Hgone.
  { intros j u Hj. destruct (decide (j = i)) as [->|Hne].
    - by rewrite lookup_delete_eq in Hj.
    - rewrite lookup_delete_ne in Hj by done. by specialize (H2 _ _ _ _ Hi Hj). }
  destruct win as [api|].
  - unfold consistent, pending, fulfilled, settle; simpl. rewrite Hp.
    refine (conj _ (conj _ (conj _ _))).
    + intros j u Hj. by destruct (Hgone j u Hj).
    + intros j k u v Hj. by destruct (Hgone j u Hj).
    + intros q Hq. rewrite Hc in Hq. inversion Hq; subst.
      right. exists api. by rewrite lookup_insert_eq.
    + intros q Hq. rewrite Hc in Hq. inversion Hq; subst.
      rewrite lookup_insert_eq. done.
  - destruct (poll_timeout t <? now - poll_startTime t);
      [|by refine (conj _ (conj _ (conj _ _)))].
    unfold consistent, pending, fulfilled, settle; simpl. rewrite Hp.
    refine (conj _ (conj _ (conj _ _))).
    + intros j u Hj. by destruct (Hgone j u Hj).
    + intros j k u v Hj. by destruct (Hgone j u Hj).
    + done.
    + done.
Qed.

Lemma consistent_step (e : event) (w : runtime) :
  consistent w -> consistent (step e w).
Proof.
  destruct e; simpl; [apply consistent_ensureApiReady | apply consistent_tick].
Qed.

Lemma consistent_run (es : list event) :
  forall w, consistent w -> consistent (run es w).
Proof.
  induction es as [|e es IH]; intros w Hw; simpl; [done|].
  apply IH, consistent_step, Hw.
Qed.

Lemma ensureApiReady_cached (timeout now : Z) (win : option api_object)
    (w : runtime) (p : nat) :
  apiReadyPromise w = Some p -> ensureApiReady timeout now win w = (p, w).
Proof. intros Hc. unfold ensureApiReady. by rewrite Hc. Qed.

Lemma ensureApiReady_caches (timeout now : Z) (win : option api_object)
    (w : runtime) :
  apiReadyPromise (ensureApiReady timeout now win w).2
  = Some (ensureApiReady timeout now win w).1.
Proof.
  unfold ensureApiReady.
  destruct (apiReadyPromise w) as [p|] eqn:Hc; [done|].
  by destruct win.
Qed.

(** What one step does to the cache entry [p]. *)
Lemma step_cache (e : event) (w : runtime) (p : nat) :
  consistent w -> apiReadyPromise w = Some p ->
  (apiReadyPromise (step e w) = Some p
   /\ (pending (step e w) p \/ fulfilled (step e w) p))
  \/ (apiReadyPromise (step e w) = None
      /\ promises (step e w) !! p = Some (Rejected timeout_message)
      /\ exists i now t,
           e = Tick i now None /\ intervals w !! i = Some t
           /\ poll_promise t = p /\ poll_timeout t < now - poll_startTime t).
Proof.
  intros Hw Hc. pose proof Hw as (H1 & _ & H3 & _).
  destruct e as [timeout now win|i now win]; simpl.
  - rewrite (ensureApiReady_cached _ _ _ _ _ Hc). simpl. left. auto.
  - unfold tick. destruct (intervals w !! i) as [t|] eqn:Hi; [|left; auto].
    destruct (H1 i t Hi) as [Hc' Hp]. rewrite Hc in Hc'. inversion Hc'; subst.
    unfold pending in Hp.
    destruct win as [api|].
    + left. unfold pending, fulfilled, settle; simpl. rewrite Hp.
      split; [done|]. right. exists api. by rewrite lookup_insert_eq.
    + destruct (poll_timeout t <? now - poll_startTime t) eqn:Ht; [|left; auto].
      right. unfold settle; simpl. rewrite Hp, lookup_insert_eq.
      split; [done|]. split; [done|].
      exists i, now, t. apply Z.ltb_lt in Ht. done.
Qed.

Lemma rejected_step (e : event) (w : runtime) (p : nat) :
  rejected w p -> rejected (step e w) p.
Proof.
  intros [m Hm]. unfold rejected.
  destruct e as [timeout now win|i now win]; simpl.
  - unfold ensureApiReady. destruct (apiReadyPromise w); [by exists m|].
    assert (fresh (dom (promises w)) <> p) as Hne.
    { intros <-. by rewrite fresh_promise in Hm. }
    destruct win; simpl; exists m; by rewrite lookup_insert_ne.
  - unfold tick. destruct (intervals w !! i) as [t|]; [|by exists m].
    assert (forall s, settle (poll_promise t) s (promises w) !! p
                      = Some (Rejected m)) as Hkeep.
    { intros s0. unfold settle.
      destruct (promises w !! poll_promise t) as [[| |]|] eqn:Hq; try done.
      destruct (decide (poll_promise t = p)) as [Heq|Hne].
      - rewrite Heq in Hq. congruence.
      - by rewrite lookup_insert_ne. }
    destruct win; [exists m; simpl; apply Hkeep|].
    destruct (poll_timeout t <? now - poll_startTime t); exists m; simpl;
      [apply Hkeep|done].
Qed.

Lemma cached_or_rejected_step (e : event) (w : runtime) (p : nat) :
  consistent w -> cached_or_rejected p w -> cached_or_rejected p (step e w).
Proof.
  intros Hw [[Hc _]|Hr].
  - destruct (step_cache e w p Hw Hc) as [?|(_ & Hrej & _)].
    + by left.
    + right. by eexists.
  - right. by apply rejected_step.
Qed.

Lemma cached_or_rejected_run (es : list event) (p : nat) :
  forall w, consistent w -> cached_or_rejected p w ->
            cached_or_rejected p (run es w).
Proof.
  induction es as [|e es IH]; intros w Hw Hp; simpl; [done|].
  apply IH; [by apply consistent_step|by apply cached_or_rejected_step].
Qed.

(** C10. In every state the module reaches: (1) while a promise is cached,
    [ensureApiReady] hands back that very promise and changes nothing, so no
    second timer is started; (2) the promise a call returns stays cached, and
    is handed back by every later call, for as long as it is pending or
    fulfilled; (3) a step clears the cache exactly when it rejects the cached
    promise, which only the timeout branch of the timer callback does;
    (4) with the cache cleared, a call creates a promise that did not exist
    before, caches it, and that promise is fulfilled at once when the API is
    there, or else pending with a timer of its own that fulfils it as soon
    as the API appears. *)
Theorem ensureApiReady_memoised (es : list event) :
  let w := run es boot in
  (forall p timeout now win,
      apiReadyPromise w = Some p ->
      ensureApiReady timeout now win w = (p, w))
  /\ (forall timeout now win es',
        let r := ensureApiReady timeout now win w in
        let w' := run es' r.2 in
        ~ rejected w' r.1 ->
        apiReadyPromise w' = Some r.1
        /\ (pending w' r.1 \/ fulfilled w' r.1)
        /\ forall timeout' now' win',
             ensureApiReady timeout' now' win' w' = (r.1, w'))
  /\ (forall p e,
        apiReadyPromise w = Some p ->
        (apiReadyPromise (step e w) = Some p
         \/ apiReadyPromise (step e w) = None)
        /\ (apiReadyPromise (step e w) = None <-> rejected (step e w) p)
        /\ (apiReadyPromise (step e w) = None ->
            promises (step e w) !! p = Some (Rejected timeout_message)
            /\ exists i now t,
                 e = Tick i now None /\ intervals w !! i = Some t
                 /\ poll_promise t = p
                 /\ poll_timeout t < now - poll_startTime t))
  /\ (forall timeout now win,
        apiReadyPromise w = None ->
        let r := ensureApiReady timeout now win w in
        promises w !! r.1 = None
        /\ apiReadyPromise r.2 = Some r.1
        /\ match win with
           | Some api => promises r.2 !! r.1 = Some (Fulfilled api)
           | None =>
               pending r.2 r.1
               /\ exists i,
                    intervals r.2 !! i
                    = Some {| poll_promise := r.1; poll_startTime := now;
                              poll_timeout := timeout |}
                    /\ forall now' api,
                         promises (tick i now' (Some api) r.2) !! r.1
                         = Some (Fulfilled api)
           end).
Proof.
  intros w.
  assert (consistent w) as Hw by apply consistent_run, consistent_boot.
  refine (conj _ (conj _ (conj _ _))).
  - intros p timeout now win Hc. by apply ensureApiReady_cached.
  - intros timeout now win es' r w' Hnot.
    assert (consistent r.2) as Hr by by apply consistent_ensureApiReady.
    assert (cached_or_rejected r.1 w') as [[Hc Hs]|Hrej].
    { apply cached_or_rejected_run; [done|]. left.
      pose proof (ensureApiReady_caches timeout now win w) as Hc.
      split; [done|]. destruct Hr as (_ & _ & H3 & _). by apply H3. }
    + split; [done|]. split; [done|].
      intros. by apply ensureApiReady_cached.
    + done.
  - intros p e Hc.
    destruct (step_cache e w p Hw Hc) as [[Hc' Hs]|(Hc' & Hrej & Hwhy)].
    + split; [by left|]. split.
      * split; [congruence|].
        intros [m Hm]. destruct Hs as [Hp|[api Hf]]; unfold pending in *; congruence.
      * congruence.
    + split; [by right|]. split; [|done].
      split; [by eexists|done].
  - intros timeout now win Hc r. subst r. unfold ensureApiReady. rewrite Hc.
    destruct win as [api|]; simpl.
    + split; [apply fresh_promise|]. split; [done|]. by rewrite lookup_insert_eq.
    + split; [apply fresh_promise|]. split; [done|].
      split; [unfold pending; simpl; by rewrite lookup_insert_eq|].
      exists (fresh (dom (intervals w))). split; [by rewrite lookup_insert_eq|].
      intros now' api. unfold tick; simpl. rewrite lookup_insert_eq. simpl.
      unfold settle. rewrite lookup_insert_eq. by rewrite lookup_insert_eq.
Qed.

End ApiReadyFacts.

(** ** The failure envelope and [callApp] *)

Section CallAppFacts.

Import Api.

Example unwrap_payload :
  unwrap Samples.stopped_payload = Return Samples.stopped_payload.
Proof. reflexivity. Qed.

Example unwrap_null : unwrap VNull = Return VNull.
Proof. reflexivity. Qed.

Example unwrap_envelope_with_data :
  unwrap Samples.not_found
  = Throw ("Subscription not found ({" +:+ dquote +:+ "id" +:+ dquote +:+ ":"
           +:+ dquote +:+ "s1" +:+ dquote +:+ "})").
Proof. reflexivity. Qed.

Example unwrap_envelope_empty_data :
  unwrap (VObj [("success", VBool false); ("message", VStr "No such server");
                ("data", VObj [])])
  = Throw "No such server".
Proof. reflexivity. Qed.

Example unwrap_envelope_without_message :
  unwrap (VObj [("success", VBool false)]) = Throw "Operation failed".
Proof. reflexivity. Qed.

Example callApp_without_method :
  callApp (Return (Some (fun _ => None))) "stop_server" []
  = Throw "App API not available: stop_server".
Proof. reflexivity. Qed.

Lemma falsy_has_no_keys (data : value) :
  truthy data = false -> key_count data = 0%nat.
Proof.
  destruct data as [| |b|n|s|l|ps]; simpl; try done.
  destruct (String.eqb_spec s EmptyString) as [->|]; done.
Qed.

Lemma truthy_key_count (data : value) :
  truthy data = true -> key_count data = length (Object_keys data).
Proof. by destruct data. Qed.

Lemma data_suffix_code (data : value) :
  (if truthy data && negb (length (Object_keys data) =? 0)%nat
   then " (" +:+ JSON_text data +:+ ")" else EmptyString)
  = data_suffix data.
Proof.
  unfold data_suffix. destruct (truthy data) eqn:Ht; simpl.
  - rewrite (truthy_key_count _ Ht). by destruct (length (Object_keys data)).
  - by rewrite (falsy_has_no_keys _ Ht).
Qed.

Lemma unwrap_failure (res : value) :
  is_failure res = true -> unwrap res = Throw (thrown_message res).
Proof.
  intros Hf. destruct res as [| |b|n|s|l|ps]; try done.
  unfold unwrap, thrown_message, or_else. simpl in *.
  destruct (assoc "success" ps) as [[| |[|]| | | |]|]; try done. simpl.
  rewrite data_suffix_code.
  by destruct (truthy (default VUndefined (assoc "message" ps))).
Qed.

Lemma unwrap_other (res : value) :
  is_failure res = false -> unwrap res = Return res.
Proof.
  intros Hf. destruct res as [| |b|n|s|l|ps]; try done.
  - unfold unwrap; simpl. by destruct b.
  - unfold unwrap; simpl. by destruct (negb (n =? 0)).
  - unfold unwrap; simpl. by destruct (negb (String.eqb s EmptyString)).
  - unfold unwrap. simpl in *.
    by destruct (assoc "success" ps) as [[| |[|]| | | |]|].
Qed.

(** C1 (as amended). The bridge answers every operation with a value: the
    payload, or the envelope [{success: false, message, data?}]. For every
    response [res] of a bridge method, [callApp] returns [res] itself unless
    [res] is an object with [res.success === false], and throws exactly in
    that case. The message of the [Error] is [res.message], or
    ['Operation failed'] when [res.message] is falsy (absent, [null] or the
    empty string), followed by [" (" + JSON.stringify(res.data) + ")"] if and
    only if [data] has at least one key. *)
Theorem callApp_failure_envelope :
  (forall o, exists v,
      Bridge.respond o = Return v
      /\ match o with
         | Bridge.Completed payload => v = payload
         | Bridge.Failed m d =>
             v = Bridge.envelope m d /\ is_failure v = true
             /\ thrown_message v
                = (if String.eqb m EmptyString then "Operation failed" else m)
                  +:+ match d with
                      | Some (kv :: rest) =>
                          " (" +:+ JSON_text (VObj (kv :: rest)) +:+ ")"
                      | _ => EmptyString
                      end
         end)
  /\ (forall (api : api_object) method f args res,
        api method = Some f -> f args = Return res ->
        let out := callApp (Return (Some api)) method args in
        (is_failure res = false -> out = Return res)
        /\ (is_failure res = true -> out = Throw (thrown_message res))
        /\ ((exists m, out = Throw m) <-> is_failure res = true)).
Proof.
  split.
  - intros [payload|m d]; eexists; (split; [reflexivity|]); [done|].
    split; [done|]. split; [by destruct d|].
    unfold thrown_message, Bridge.envelope. simpl.
    destruct (String.eqb m EmptyString); simpl;
      destruct d as [[|kv rest]|]; reflexivity.
  - intros api method f args res Hm Hf out. subst out.
    unfold callApp. rewrite Hm, Hf.
    destruct (is_failure res) eqn:Hres.
    + rewrite (unwrap_failure _ Hres).
      split; [done|]. split; [done|]. split; [done|by eexists].
    + rewrite (unwrap_other _ Hres).
      split; [done|]. split; [done|]. split; [by intros [m ?]|done].
Qed.

End CallAppFacts.

(** The instance used below: an envelope with details, thrown with its
    message and the JSON of [data]; and a plain payload, handed through. *)
Lemma callApp_failure_envelope_witness :
  (Samples.answering Samples.not_found "get_subscription" = Some (fun _ => Return Samples.not_found)
   /\ Api.is_failure Samples.not_found = true
   /\ Api.callApp (Return (Some (Samples.answering Samples.not_found)))
        "get_subscription" [VStr "s1"]
      = Throw ("Subscription not found (" +:+ JS.JSON_text (VObj [("id", VStr "s1")]) +:+ ")"))
  /\ (Api.is_failure Samples.stopped_payload = false
      /\ Api.callApp (Return (Some (Samples.answering Samples.stopped_payload)))
           "stop_server" []
         = Return Samples.stopped_payload).
Proof.
  split.
  - split; [reflexivity|]. split; [reflexivity|].
    exact (proj1 (proj2 (proj2 callApp_failure_envelope
             (Samples.answering Samples.not_found) "get_subscription"
             (fun _ => Return Samples.not_found) [VStr "s1"] Samples.not_found
             eq_refl eq_refl)) eq_refl).
  - split; [reflexivity|].
    exact (proj1 (proj2 callApp_failure_envelope
             (Samples.answering Samples.stopped_payload) "stop_server"
             (fun _ => Return Samples.stopped_payload) [] Samples.stopped_payload
             eq_refl eq_refl) eq_refl).
Defined.

(** C1 as worded fails for an envelope whose [message] is the empty string:
    the property is present, yet the [Error] carries ['Operation failed']. *)
Lemma callApp_empty_message_counterexample :
  Api.is_failure Samples.empty_message = true
  /\ Api.callApp (Return (Some (Samples.answering Samples.empty_message)))
       "stop_server" []
     = Throw "Operation failed"
  /\ Api.claimed_message Samples.empty_message = EmptyString
  /\ Api.callApp (Return (Some (Samples.answering Samples.empty_message)))
       "stop_server" []
     <> Throw (Api.claimed_message Samples.empty_message).
Proof. repeat split; try reflexivity. discriminate. Qed.

(** ** Test batches *)

Section TesterFacts.

Import Tester.

Lemma success_partition (rs : list ServerTestResult) :
  (length (filter (fun r => success r = true) rs)
   + length (filter (fun r => success r = false) rs) = length rs)%nat.
Proof.
  induction rs as [|r rs IH]; [done|].
  rewrite !filter_cons.
  destruct (success r); simpl;
    repeat case_decide; simpl; try done; lia.
Qed.

(** C3. For every batch, the results of [test_subscription_servers] are as
    many as the input servers and stand in input order (the i-th result is
    the result of the i-th server); [successful_tests] is the number of
    results whose [success] is true, [failed_tests] the number of those
    whose [success] is false, and the two add up to [total_servers]. *)
Theorem test_batch_counts (run : nat -> Server -> probe) (sub_id sub_name : string)
    (servers : list Server) :
  let r := test_subscription_servers run sub_id sub_name servers in
  length (results r) = length servers
  /\ test_server_id <$> results r = id <$> servers
  /\ (forall i, results r !! i
                = (fun s => record_result s (run i s)) <$> servers !! i)
  /\ total_servers r = length servers
  /\ successful_tests r
     = length (filter (fun x => success x = true) (results r))
  /\ failed_tests r
     = length (filter (fun x => success x = false) (results r))
  /\ (successful_tests r + failed_tests r = total_servers r)%nat.
Proof.
  simpl. unfold testAll.
  split; [by rewrite length_imap|].
  split; [rewrite fmap_imap; apply (imap_const id)|].
  split; [intros i; apply list_lookup_imap|].
  split; [done|]. split; [done|]. split; [done|].
  rewrite success_partition. by rewrite length_imap.
Qed.

End TesterFacts.

(** ** The single active connection *)

Section FacadeFacts.

Import Facade.

Ltac each_state :=
  repeat first [apply Forall_nil_2 | apply Forall_cons_2].

Lemma owned_at_most_one (s : facade) :
  owned s -> (length (running_handles s) <= 1)%nat.
Proof.
  intros Hs. unfold running_handles.
  set (m := filter (fun kv : nat * proc_state => kv.2 = Running) (handles s)).
  pose proof (NoDup_fst_map_to_list m) as Hnd.
  assert (forall h, h ∈ (map_to_list m).*1 -> handles s !! h = Some Running) as Hrun.
  { intros h Hh. apply list_elem_of_fmap in Hh as [[h' st] [-> Hin]].
    apply elem_of_map_to_list in Hin.
    apply map_lookup_filter_Some in Hin as [Hl Hst]. simpl in *. by subst. }
  destruct ((map_to_list m).*1) as [|a [|b l]]; simpl; try lia.
  exfalso.
  destruct (Hs a) as (c & Hc & Ha); [apply Hrun; set_solver|].
  destruct (Hs b) as (c' & Hc' & Hb); [apply Hrun; set_solver|].
  rewrite Hc in Hc'. inversion Hc'; subst c'.
  apply NoDup_cons in Hnd as [Hnotin _]. apply Hnotin. rewrite <- Ha, Hb.
  set_solver.
Qed.

Lemma fresh_handle (s : facade) : handles s !! fresh (dom (handles s)) = None.
Proof. apply not_elem_of_dom, is_fresh. Qed.

Lemma owned_without_active (s : facade) (h : nat) :
  owned s -> active s = None -> not_running h s.
Proof.
  intros Hs Ha Hh. destruct (Hs h Hh) as (c & Hc & _). congruence.
Qed.

Lemma owned_stop_trace (c : connection) (s : facade) :
  owned s -> active s = Some c -> Forall owned (stop_trace c s).
Proof.
  intros Hs Ha. unfold stop_trace.
  assert (forall h st, st <> Running ->
             <[conn_handle c := st]> (handles s) !! h = Some Running ->
             False) as Hnone.
  { intros h st Hst Hh. destruct (decide (h = conn_handle c)) as [->|Hne].
    - rewrite lookup_insert_eq in Hh. congruence.
    - rewrite lookup_insert_ne in Hh by done.
      destruct (Hs h Hh) as (c' & Hc' & Heq). congruence. }
  destruct (is_running c s) eqn:Hr.
  - each_state; intros h Hh; simpl in *;
      exfalso; refine (Hnone h _ _ Hh); done.
  - each_state. intros h Hh. simpl in *.
    destruct (Hs h Hh) as (c' & Hc' & Heq).
    rewrite Ha in Hc'. inversion Hc'; subst c'.
    unfold is_running in Hr. rewrite Heq, Hh in Hr. done.
Qed.

Lemma stop_trace_final (c : connection) (s : facade) :
  active (final s (stop_trace c s)) = None
  /\ dom (handles (final s (stop_trace c s))) ⊆ dom (handles s) ∪ {[conn_handle c]}.
Proof.
  unfold stop_trace, final. destruct (is_running c s); simpl.
  - split; [done|]. rewrite dom_insert_L. apply union_subseteq. split.
    + apply union_subseteq_r.
    + apply union_subseteq_l.
  - split; [done|]. apply union_subseteq_l.
Qed.

Lemma owned_spawn (sid remarks : string) (boot : start_failure + started)
    (s : facade) :
  owned s -> active s = None -> Forall owned (spawn sid remarks boot s).1.
Proof.
  intros Hs Ha. unfold spawn.
  set (h0 := fresh (dom (handles s))).
  assert (forall h st, <[h0 := st]> (handles s) !! h = Some Running ->
                       h = h0 /\ st = Running) as Honly.
  { intros h st Hh. destruct (decide (h = h0)) as [->|Hne].
    - rewrite lookup_insert_eq in Hh. by inversion Hh.
    - rewrite lookup_insert_ne in Hh by done.
      by destruct (owned_without_active s h Hs Ha). }
  destruct boot as [f|st]; simpl; each_state; intros h Hh; simpl in *;
    destruct (Honly _ _ Hh) as [-> Hst]; try done.
  eexists. split; [reflexivity|done].
Qed.

Lemma owned_final (s : facade) (trace : list facade) :
  owned s -> Forall owned trace -> owned (final s trace).
Proof.
  intros Hs Ht. unfold final.
  destruct (last trace) as [s'|] eqn:Hl; [|done]. simpl.
  eapply Forall_forall; [exact Ht|]. apply last_Some_elem_of. exact Hl.
Qed.

Lemma owned_exec (c : call) (s : facade) :
  owned s -> Forall owned (exec c s).
Proof.
  intros Hs. destruct c as [sid remarks stop_ok boot|stop_ok|]; simpl.
  - unfold startServer. destruct (active s) as [c|] eqn:Ha.
    + destruct (String.eqb (conn_server_id c) sid && is_running c s); [done|].
      destruct stop_ok; simpl.
      * apply Forall_app. split; [by apply owned_stop_trace|].
        apply owned_spawn.
        -- apply owned_final; [done|by apply owned_stop_trace].
        -- apply stop_trace_final.
      * each_state. intros h Hh. simpl in *.
        rewrite <- Ha. by apply Hs.
    + by apply owned_spawn.
  - unfold stopServer. destruct (active s) as [c|] eqn:Ha; simpl; [|done].
    destruct stop_ok; simpl; [by apply owned_stop_trace|].
    each_state. intros h Hh. simpl in *. rewrite <- Ha. by apply Hs.
  - each_state. unfold crash.
    destruct (active s) as [c|] eqn:Ha; [|done].
    destruct (is_running c s) eqn:Hr; [|done].
    intros h Hh. simpl in *.
    destruct (decide (h = conn_handle c)) as [->|Hne].
    + by rewrite lookup_insert_eq in Hh.
    + rewrite lookup_insert_ne in Hh by done. rewrite <- Ha. by apply Hs.
Qed.

Lemma owned_observe (cs : list call) :
  forall s, owned s -> Forall owned (observe cs s).
Proof.
  induction cs as [|c cs IH]; intros s Hs; simpl; [done|].
  pose proof (owned_exec c s Hs) as Hc.
  apply Forall_app. split; [done|].
  apply IH, owned_final; done.
Qed.

Lemma owned_init : owned init.
Proof. intros h Hh. unfold init in Hh. simpl in Hh. by rewrite lookup_empty in Hh. Qed.

Lemma owned_after (cs : list call) :
  forall s, owned s -> owned (after cs s).
Proof.
  induction cs as [|c cs IH]; intros s Hs; simpl; [done|].
  apply IH, owned_final; [done|by apply owned_exec].
Qed.

Lemma registered_final (s : facade) (trace : list facade) :
  registered s -> Forall registered trace -> registered (final s trace).
Proof.
  intros Hs Ht. unfold final.
  destruct (last trace) as [s'|] eqn:Hl; [|done]. simpl.
  eapply Forall_forall; [exact Ht|]. apply last_Some_elem_of. exact Hl.
Qed.

Lemma is_Some_insert (m : gmap nat proc_state) (h k : nat) (st : proc_state) :
  is_Some (m !! k) -> is_Some (<[h := st]> m !! k).
Proof.
  intros Hk. destruct (decide (k = h)) as [->|Hne].
  - rewrite lookup_insert_eq. by eexists.
  - by rewrite lookup_insert_ne.
Qed.

Lemma registered_stop_trace (c : connection) (s : facade) :
  registered s -> Forall registered (stop_trace c s).
Proof.
  intros Hs. unfold stop_trace.
  destruct (is_running c s); each_state; intros c' Hc'; simpl in *; try done.
  by apply is_Some_insert, Hs.
Qed.

Lemma registered_spawn (sid remarks : string) (boot : start_failure + started)
    (s : facade) :
  registered s -> Forall registered (spawn sid remarks boot s).1.
Proof.
  intros Hs. unfold spawn.
  destruct boot as [f|st]; simpl; each_state; intros c' Hc'; simpl in *;
    try (by apply is_Some_insert, Hs).
  inversion Hc'; subst; simpl. rewrite lookup_insert_eq. by eexists.
Qed.

Lemma registered_exec (c : call) (s : facade) :
  registered s -> Forall registered (exec c s).
Proof.
  intros Hs. destruct c as [sid remarks stop_ok boot|stop_ok|]; simpl.
  - unfold startServer. destruct (active s) as [c|] eqn:Ha.
    + destruct (String.eqb (conn_server_id c) sid && is_running c s); [done|].
      destruct stop_ok; simpl.
      * apply Forall_app. split; [by apply registered_stop_trace|].
        apply registered_spawn, registered_final;
          [done|by apply registered_stop_trace].
      * each_state. intros c' Hc'. simpl in *. apply Hs. congruence.
    + by apply registered_spawn.
  - unfold stopServer. destruct (active s) as [c|] eqn:Ha; simpl; [|done].
    destruct stop_ok; simpl; [by apply registered_stop_trace|].
    each_state. intros c' Hc'. simpl in *. apply Hs. congruence.
  - each_state. unfold crash.
    destruct (active s) as [c|] eqn:Ha; [|done].
    destruct (is_running c s) eqn:Hr; [|done].
    intros c' Hc'. simpl in *. apply is_Some_insert, Hs. congruence.
Qed.

Lemma registered_after (cs : list call) :
  forall s, registered s -> registered (after cs s).
Proof.
  induction cs as [|c cs IH]; intros s Hs; simpl; [done|].
  apply IH, registered_final; [done|by apply registered_exec].
Qed.

Lemma registered_init : registered init.
Proof. intros c Hc. done. Qed.

(** C5. Through every sequence of start, stop and crash events, each state
    an observer can see has at most one handle in [Running], and a running
    handle is the one the ActiveConnection refers to. When a start finds
    another connection active and the stop of it succeeds, the call first
    runs the stop (no new handle exists yet), after which no connection is
    active and the old handle is not running in any later state of the call.
    When that stop fails, the start is aborted: the answer is the failure
    envelope, no handle is added, the old connection stays the active one
    and the status is [error]. *)
Theorem at_most_one_connection (cs : list call) :
  Forall (fun s => owned s /\ (length (running_handles s) <= 1)%nat)
         (init :: observe cs init)
  /\ (forall c sid remarks boot,
        let s := after cs init in
        active s = Some c ->
        String.eqb (conn_server_id c) sid && is_running c s = false ->
        let before := stop_trace c s in
        let later := (spawn sid remarks boot (final s before)).1 in
        (startServer sid remarks true boot s).1 = before ++ later
        /\ Forall (fun s' => dom (handles s') = dom (handles s)) before
        /\ active (final s before) = None
        /\ Forall (not_running (conn_handle c)) (final s before :: later))
  /\ (forall c sid remarks boot,
        let s := after cs init in
        active s = Some c ->
        String.eqb (conn_server_id c) sid && is_running c s = false ->
        startServer sid remarks false boot s
        = ([ {| active := Some c; handles := handles s; derived := ERROR |} ],
           Bridge.Failed stop_failed_text None)).
Proof.
  refine (conj _ (conj _ _)).
  - assert (Forall owned (init :: observe cs init)) as Hall.
    { apply Forall_cons_2; [apply owned_init|apply owned_observe, owned_init]. }
    eapply Forall_impl; [exact Hall|].
    intros s Hs. split; [done|by apply owned_at_most_one].
  - intros c sid remarks boot s Ha Hsame before later.
    assert (owned s) as Hs by apply owned_after, owned_init.
    assert (registered s) as Hreg by apply registered_after, registered_init.
    destruct (Hreg c Ha) as [st Hst].
    assert (conn_handle c ∈ dom (handles s)) as Hdom by (apply elem_of_dom; eauto).
    split; [unfold startServer; by rewrite Ha, Hsame|].
    assert (handles (final s before) !! conn_handle c <> Some Running
            /\ is_Some (handles (final s before) !! conn_handle c)) as [Hold Hin].
    { subst before. unfold stop_trace, final.
      destruct (is_running c s) eqn:Hr; simpl.
      - rewrite lookup_insert_eq. split; [done|by eexists].
      - split; [|by eexists]. unfold is_running in Hr. rewrite Hst in Hr.
        rewrite Hst. by destruct st. }
    split.
    { subst before. unfold stop_trace.
      destruct (is_running c s); each_state; simpl; try done;
        rewrite dom_insert_L; set_solver. }
    split; [apply stop_trace_final|].
    apply Forall_cons_2; [exact Hold|].
    subst later. unfold spawn.
    set (s1 := final s before) in *.
    set (h0 := fresh (dom (handles s1))).
    assert (h0 <> conn_handle c) as Hne.
    { intros Heq. pose proof (fresh_handle s1) as Hf. fold h0 in Hf.
      rewrite Heq in Hf. rewrite Hf in Hin. by destruct Hin. }
    destruct boot as [f|ok]; simpl; each_state; unfold not_running; simpl;
      by rewrite lookup_insert_ne.
  - intros c sid remarks boot s Ha Hsame.
    unfold startServer. by rewrite Ha, Hsame.
Qed.






End FacadeFacts.

(** ** The statements above at concrete inputs *)

Lemma duration_display_witness :
  (status (Samples.running_since "t=1000") = RUNNING
   /\ start_time (Samples.running_since "t=1000") = Some "t=1000"
   /\ "t=1000" <> EmptyString
   /\ Samples.getTime_1000 "t=1000" = Some 1000
   /\ StatusIndicator.duration Samples.getTime_1000
        (Some (Samples.running_since "t=1000")) 3726500 = "01:02:05"
   /\ StatusIndicator.duration Samples.getTime_1000
        (Some (Samples.running_since "t=1000")) 0 = "00:00:00")
  /\ (start_time (Samples.running_since "soon") = Some "soon"
      /\ Samples.getTime_1000 "soon" = None
      /\ StatusIndicator.duration Samples.getTime_1000
           (Some (Samples.running_since "soon")) 3726500 = EmptyString)
  /\ (status Samples.stopped_status <> RUNNING
      /\ StatusIndicator.duration Samples.getTime_1000
           (Some Samples.stopped_status) 3726500 = EmptyString).
Proof.
  assert ("t=1000" <> EmptyString) as Hne by discriminate.
  assert (status Samples.stopped_status <> RUNNING) as Hstopped by discriminate.
  split; [|split].
  - do 4 (split; [first [reflexivity | exact Hne]|]).
    split.
    + destruct (proj1 (duration_display Samples.getTime_1000
                         (Samples.running_since "t=1000") 3726500)
                      "t=1000" 1000 eq_refl eq_refl Hne eq_refl) as [Heq _].
      exact Heq.
    + destruct (proj1 (duration_display Samples.getTime_1000
                         (Samples.running_since "t=1000") 0)
                      "t=1000" 1000 eq_refl eq_refl Hne eq_refl) as [Heq _].
      exact Heq.
  - do 2 (split; [reflexivity|]).
    exact (proj1 (proj2 (duration_display Samples.getTime_1000
                           (Samples.running_since "soon") 3726500))
                 "soon" eq_refl eq_refl).
  - split; [exact Hstopped|].
    exact (proj1 (proj2 (proj2 (duration_display Samples.getTime_1000
                                  Samples.stopped_status 3726500)))
                 Hstopped).
Defined.



Lemma ensureApiReady_memoised_witness :
  (Api.apiReadyPromise Samples.waiting = Some 0%nat
   /\ Api.ensureApiReady Api.default_timeout 50 None Samples.waiting
      = (0%nat, Samples.waiting))
  /\ (Api.apiReadyPromise (Api.step (Api.Tick 0 10100 None) Samples.waiting) = None
      /\ Api.promises (Api.step (Api.Tick 0 10100 None) Samples.waiting) !! 0%nat
         = Some (Api.Rejected Api.timeout_message))
  /\ (Api.apiReadyPromise Samples.timed_out = None
      /\ Api.promises
           (Api.ensureApiReady Api.default_timeout 20000
              (Some (Samples.answering VNull)) Samples.timed_out).2
         !! (Api.ensureApiReady Api.default_timeout 20000
               (Some (Samples.answering VNull)) Samples.timed_out).1
         = Some (Api.Fulfilled (Samples.answering VNull))).
Proof.
  split; [|split].
  - split; [reflexivity|].
    exact (proj1 (ensureApiReady_memoised [Api.Call Api.default_timeout 0 None])
             0%nat Api.default_timeout 50 None eq_refl).
  - split; [reflexivity|].
    exact (proj1 (proj2 (proj2 (proj1 (proj2 (proj2
             (ensureApiReady_memoised [Api.Call Api.default_timeout 0 None])))
             0%nat (Api.Tick 0 10100 None) eq_refl)) eq_refl)).
  - split; [reflexivity|].
    destruct (proj2 (proj2 (proj2
                (ensureApiReady_memoised
                   [Api.Call Api.default_timeout 0 None; Api.Tick 0 10100 None])))
                Api.default_timeout 20000 (Some (Samples.answering VNull)) eq_refl)
      as (_ & _ & Hdone).
    exact Hdone.
Defined.



Lemma at_most_one_connection_witness :
  (Facade.active (Facade.after [Samples.start_a] Facade.init) = Some Samples.conn_a
   /\ String.eqb (Facade.conn_server_id Samples.conn_a) "b"
      && Facade.is_running Samples.conn_a (Facade.after [Samples.start_a] Facade.init)
      = false
   /\ Facade.startServer "b" "B" false (inr Samples.boot_ok)
        (Facade.after [Samples.start_a] Facade.init)
      = ([ {| Facade.active := Some Samples.conn_a;
              Facade.handles :=
                Facade.handles (Facade.after [Samples.start_a] Facade.init);
              Facade.derived := ERROR |} ],
         Bridge.Failed Facade.stop_failed_text None))
  /\ Forall (fun s => Facade.owned s /\ (length (Facade.running_handles s) <= 1)%nat)
       (Facade.init :: Facade.observe [Samples.start_a; Samples.start_b] Facade.init).
Proof.
  split.
  - split; [reflexivity|]. split; [reflexivity|].
    exact (proj2 (proj2 (at_most_one_connection [Samples.start_a]))
             Samples.conn_a "b" "B" (inr Samples.boot_ok) eq_refl eq_refl).
  - exact (proj1 (at_most_one_connection [Samples.start_a; Samples.start_b])).
Defined.

(** * Further properties of the front end *)

(** ** What a session of [LogStreamModal] shows *)

Section LogSessionFacts.

Import LogStreamModal LogStreamView.

Lemma on_interval_keeps_gate (r : completion LogStreamBatchResponse) (m : modal) :
  isLoading (on_interval r m) = isLoading m
  /\ error (on_interval r m) = error m.
Proof.
  unfold on_interval. destruct (polling m); [|done].
  by destruct r.
Qed.

Lemma polling_on_interval (r : completion LogStreamBatchResponse) (m : modal) :
  polling (on_interval r m) = polling m.
Proof.
  unfold polling. by destruct (on_interval_keeps_gate r m) as [-> ->].
Qed.

Lemma run_polls_keeps_gate (rs : list (completion LogStreamBatchResponse)) :
  forall m, isLoading (run_polls rs m) = isLoading m
            /\ error (run_polls rs m) = error m.
Proof.
  induction rs as [|r rs IH]; intros m; simpl; [done|].
  destruct (IH (on_interval r m)) as [-> ->].
  apply on_interval_keeps_gate.
Qed.

Lemma run_polls_idle (rs : list (completion LogStreamBatchResponse)) :
  forall m, polling m = false -> run_polls rs m = m.
Proof.
  induction rs as [|r rs IH]; intros m Hm; simpl; [done|].
  unfold on_interval. rewrite Hm. by apply IH.
Qed.

Lemma run_polls_logs (rs : list (completion LogStreamBatchResponse)) :
  forall m, polling m = true ->
            m_logs (run_polls rs m) = m_logs m ++ delivered rs.
Proof.
  induction rs as [|r rs IH]; intros m Hm; simpl.
  - by rewrite app_nil_r.
  - rewrite IH by by rewrite polling_on_interval.
    unfold on_interval. rewrite Hm. unfold delivered. simpl.
    destruct r as [response|msg].
    + rewrite poll_logs_app. by rewrite <- app_assoc.
    + done.
Qed.

(** X1. While the modal polls, the list it holds after any number of polls
    is the list it held before followed by the batches of the polls that
    succeeded, in arrival order, each entry once: the client drops none and
    adds none. While it does not poll (still loading, or the initial load
    failed), timer firings change nothing. *)
Theorem polls_deliver_every_batch
    (rs : list (completion LogStreamBatchResponse)) (m : modal) :
  (polling m = true -> m_logs (run_polls rs m) = m_logs m ++ delivered rs)
  /\ (polling m = false -> run_polls rs m = m).
Proof. split; [apply run_polls_logs|apply run_polls_idle]. Qed.

(** X2. No poll, failed or not, touches [isLoading] or [error]: the modal
    never starts to show an error text or the spinner because of a poll, and
    a polling modal keeps polling. *)
Theorem polls_never_surface_errors
    (rs : list (completion LogStreamBatchResponse)) (m : modal) :
  isLoading (run_polls rs m) = isLoading m
  /\ error (run_polls rs m) = error m
  /\ polling (run_polls rs m) = polling m
  /\ (forall msg, renderLogs (run_polls rs m) = ErrorText msg
                  <-> renderLogs m = ErrorText msg)
  /\ (renderLogs (run_polls rs m) = Spinner <-> renderLogs m = Spinner).
Proof.
  destruct (run_polls_keeps_gate rs m) as [Hl He].
  split; [done|]. split; [done|].
  split; [unfold polling; by rewrite Hl, He|].
  unfold renderLogs. rewrite Hl, He.
  destruct (isLoading m); [split; [done|]; split; done|].
  destruct (error_truthy (error m)); [split; [done|]; split; done|].
  split.
  - intros msg.
    destruct (length (m_logs (run_polls rs m)) =? 0)%nat;
      destruct (length (m_logs m) =? 0)%nat; split; done.
  - destruct (length (m_logs (run_polls rs m)) =? 0)%nat;
      destruct (length (m_logs m) =? 0)%nat; split; done.
Qed.

Lemma offered_nonzero (rs : list (completion LogStreamBatchResponse)) :
  Forall (fun c => c <> 0) (offered rs).
Proof.
  induction rs as [|r rs IH]; [constructor|].
  unfold offered. simpl. fold (offered rs).
  destruct r as [response|msg]; [|done].
  destruct (next_since_ms response) as [c|] eqn:Hc; simpl; [|done].
  destruct (c =? 0) eqn:Hz; simpl; [done|].
  constructor; [|done]. by apply Z.eqb_neq.
Qed.

Lemma run_polls_cursor (rs : list (completion LogStreamBatchResponse)) :
  forall m, polling m = true ->
            sinceMsRef (run_polls rs m)
            = match last (offered rs) with
              | Some c => Some c
              | None => sinceMsRef m
              end.
Proof.
  induction rs as [|r rs IH]; intros m Hm; simpl; [done|].
  rewrite IH by by rewrite polling_on_interval.
  unfold offered. simpl. fold (offered rs).
  unfold on_interval. rewrite Hm.
  destruct r as [response|msg]; [|done]. simpl.
  destruct (cursor_truthy (next_since_ms response)) eqn:Ht.
  - destruct (next_since_ms response) as [c|]; [|done]. simpl.
    rewrite last_cons. by destruct (last (offered rs)).
  - done.
Qed.

(** X3. While the modal polls, its cursor after any number of polls is the
    most recent [next_since_ms] that an answer carried and that was neither
    [null] nor [0]; if there was none, the cursor is the one it had. A
    failed poll never moves it, and no poll ever clears it. *)
Theorem cursor_is_last_offer
    (rs : list (completion LogStreamBatchResponse)) (m : modal) :
  polling m = true ->
  sinceMsRef (run_polls rs m)
  = match last (offered rs) with
    | Some c => Some c
    | None => sinceMsRef m
    end
  /\ Forall (fun c => c <> 0) (offered rs)
  /\ (sinceMsRef m <> None -> sinceMsRef (run_polls rs m) <> None).
Proof.
  intros Hm. rewrite (run_polls_cursor rs m Hm).
  split; [done|]. split; [apply offered_nonzero|].
  by destruct (last (offered rs)).
Qed.

(** X4. Before the initial load has answered the modal shows the spinner and
    does not poll. Afterwards it polls exactly when the load succeeded or
    failed with an empty error message; it shows the error text exactly when
    the load failed with a non-empty message. A failure with an empty message
    therefore shows ["No log entries found."] and polls without a cursor. *)
Theorem initial_load_gate (r : completion LogSnapshotResponse) (now : Z) :
  polling mount = false
  /\ renderLogs mount = Spinner
  /\ (polling (fetchInitialLogs r now mount) = true
      <-> (exists snap, r = Return snap) \/ r = Throw EmptyString)
  /\ (forall msg, renderLogs (fetchInitialLogs r now mount) = ErrorText msg
                  <-> r = Throw msg /\ msg <> EmptyString)
  /\ (r = Throw EmptyString ->
      renderLogs (fetchInitialLogs r now mount) = NoEntries
      /\ request_since (fetchInitialLogs r now mount) = None)
  /\ (forall snap, r = Return snap ->
      request_since (fetchInitialLogs r now mount) = Some now
      /\ m_logs (fetchInitialLogs r now mount) = snapshot_logs snap).
Proof.
  split; [done|]. split; [done|].
  destruct r as [snap|msg]; simpl.
  - split; [split; [intros _; left; by eexists|done]|].
    split.
    { intros msg. unfold renderLogs; simpl.
      split; [by destruct (length (snapshot_logs snap) =? 0)%nat|by intros [? _]]. }
    split; [done|]. by intros snap' [= <-].
  - unfold polling, renderLogs; simpl.
    destruct (String.eqb_spec msg EmptyString) as [->|Hne]; simpl.
    + split; [split; [intros _; by right|done]|].
      split; [intros msg; split; [done|by intros [[= <-] ?]]|].
      split; done.
    + split; [split; [done|intros [[? ?]|[= ?]]; done]|].
      split.
      { intros msg'. split; [by intros [= <-]|by intros [[= <-] _]]. }
      split; [by intros [= ?]|done].
Qed.

End LogSessionFacts.

(** ** What [callApp] hands to its callers *)

Section CallAppResults.

Import Api ApiCalls LogStreamModal LogStreamView.

Lemma unwrap_returns_plain (res v : value) :
  unwrap res = Return v -> v = res /\ is_failure v = false.
Proof.
  intros Hu. destruct (is_failure res) eqn:Hf.
  - rewrite (unwrap_failure _ Hf) in Hu. done.
  - rewrite (unwrap_other _ Hf) in Hu. by inversion Hu; subst.
Qed.

(** X5. Whatever the state of the bridge (promise rejected, bridge object or
    method missing, the method itself throwing, any answer), a value that
    [callApp] returns is never a failure envelope: callers need not test
    [success] again. *)
Theorem callApp_returns_no_envelope (ready : completion (option api_object))
    (method : string) (args : list value) (v : value) :
  callApp ready method args = Return v -> is_failure v = false.
Proof.
  unfold callApp. destruct ready as [[api|]|e]; try done.
  destruct (api method) as [f|]; [|done].
  destruct (f args) as [res|e]; [|done].
  intros Hu. by apply unwrap_returns_plain in Hu as [_ ?].
Qed.




End CallAppResults.

(** ** The clock, the button and the connect animation of [StatusIndicator] *)

Section StatusFacts.

Import StatusIndicator StatusButton.

(** X7. The elapsed seconds never run backwards as the clock advances, stay
    at zero until a full second after [start_time] (also when the clock is
    behind it), grow by exactly one for every 1000 ms once the start time is
    reached, and never exceed the time that has really passed. *)
Theorem duration_counts_whole_seconds (start now now' : Z) :
  (now <= now' -> diffSeconds start now <= diffSeconds start now')
  /\ (now < start + 1000 -> diffSeconds start now = 0)
  /\ (start <= now ->
      diffSeconds start (now + 1000) = diffSeconds start now + 1)
  /\ (start <= now ->
      diffSeconds start now * 1000 <= now - start
      < (diffSeconds start now + 1) * 1000).
Proof.
  unfold diffSeconds. split; [|split; [|split]].
  - intros Hle.
    assert ((now - start) / 1000 <= (now' - start) / 1000)
      by (apply Z.div_le_mono; lia).
    lia.
  - intros Hlt.
    assert ((now - start) / 1000 <= 0).
    { destruct (Z_lt_le_dec (now - start) 0).
      - assert ((now - start) / 1000 < 0) by (apply Z.div_lt_upper_bound; lia). lia.
      - rewrite Z.div_small by lia. lia. }
    lia.
  - intros Hle.
    replace (now + 1000 - start) with (now - start + 1 * 1000) by lia.
    rewrite Z.div_add by lia.
    assert (0 <= (now - start) / 1000) by (apply Z.div_pos; lia). lia.
  - intros Hle.
    assert (0 <= (now - start) / 1000) by (apply Z.div_pos; lia).
    rewrite Z.max_r by lia.
    pose proof (Z.div_mod (now - start) 1000 ltac:(lia)).
    pose proof (Z.mod_pos_bound (now - start) 1000 ltac:(lia)). lia.
Qed.

Lemma Number_toString_uint (n : Z) :
  0 <= n -> Number_toString n = NilEmpty.string_of_uint (N.to_uint (Z.to_N n)).
Proof. intros Hn. by destruct n. Qed.

Lemma decimal_value_uint (d : Decimal.uint) :
  decimal_value (NilEmpty.string_of_uint d) = Some (Z.of_N (N.of_uint d)).
Proof. unfold decimal_value. by rewrite NilEmpty.usu. Qed.

Lemma decimal_value_zero (s : string) :
  decimal_value (String "0" s) = decimal_value s.
Proof.
  unfold decimal_value. simpl.
  by destruct (NilEmpty.uint_of_string s).
Qed.

Lemma decimal_value_padStart2 (n : Z) :
  0 <= n -> decimal_value (padStart2 (Number_toString n)) = Some n.
Proof.
  intros Hn.
  assert (decimal_value (Number_toString n) = Some n) as Hv.
  { rewrite Number_toString_uint by done. rewrite decimal_value_uint.
    rewrite DecimalN.Unsigned.of_to. by rewrite Z2N.id. }
  unfold padStart2.
  destruct (Number_toString n) as [|a [|b t]];
    cbv [String.length String.append]; rewrite ?decimal_value_zero; done.
Qed.

Lemma append_same_length (a a' b b' : string) :
  String.length a = String.length a' ->
  a +:+ b = a' +:+ b' -> a = a' /\ b = b'.
Proof.
  revert a'. induction a as [|c a IH]; intros [|c' a'] Hl He; simpl in *;
    try done.
  inversion He; subst. destruct (IH a') as [-> ->]; [lia|done|done].
Qed.

Lemma append_length (a b : string) :
  String.length (a +:+ b) = (String.length a + String.length b)%nat.
Proof. induction a; simpl; [done|by rewrite IHa]. Qed.

(** X8. Two duration texts are equal only if they stand for the same number
    of elapsed seconds: the display [hh:mm:ss] can be read back, also beyond
    99 hours, where the hour part grows to three and more digits. *)
Theorem display_determines_seconds (start now start' now' : Z) :
  updateDuration start now = updateDuration start' now' ->
  diffSeconds start now = diffSeconds start' now'.
Proof.
  unfold updateDuration.
  set (d := diffSeconds start now). set (d' := diffSeconds start' now').
  assert (0 <= d) as Hd by apply diffSeconds_nonneg.
  assert (0 <= d') as Hd' by apply diffSeconds_nonneg.
  destruct (diffSeconds_split d Hd) as (Hh & Hm & Hs & Hsum).
  destruct (diffSeconds_split d' Hd') as (Hh' & Hm' & Hs' & Hsum').
  unfold hours, minutes, seconds. intros He.
  pose proof (padStart2_length_small (d mod 3600 / 60) ltac:(lia)) as Lm.
  pose proof (padStart2_length_small (d' mod 3600 / 60) ltac:(lia)) as Lm'.
  pose proof (padStart2_length_small (d mod 60) ltac:(lia)) as Ls.
  pose proof (padStart2_length_small (d' mod 60) ltac:(lia)) as Ls'.
  assert (String.length (padStart2 (Number_toString (d / 3600)))
          = String.length (padStart2 (Number_toString (d' / 3600)))) as Lh.
  { apply (f_equal String.length) in He.
    rewrite !append_length in He. simpl in He. lia. }
  apply append_same_length in He as [Eh He]; [|done].
  apply (append_same_length ":" ":") in He as [_ He]; [|done].
  apply append_same_length in He as [Em He]; [|lia].
  apply (append_same_length ":" ":") in He as [_ Es]; [|done].
  apply (f_equal decimal_value) in Eh, Em, Es.
  rewrite !decimal_value_padStart2 in Eh, Em, Es by lia.
  inversion Eh. inversion Em. inversion Es. lia.
Qed.

(** X9. The duration chip is visible exactly when the status is running and
    [start_time] is a non-empty text that parses to a date; [aria-hidden] is
    always the opposite of its visibility; and a visible chip shows at least
    the eight characters of [00:00:00]. *)
Theorem duration_chip_shown_iff (Date_getTime : string -> option Z)
    (st : option ServerStatusResponse) (now : Z) :
  duration_aria_hidden st (duration Date_getTime st now)
  = negb (duration_shown st (duration Date_getTime st now))
  /\ (duration_shown st (duration Date_getTime st now) = true
      <-> exists s iso start,
            st = Some s /\ status s = RUNNING /\ start_time s = Some iso
            /\ iso <> EmptyString /\ Date_getTime iso = Some start)
  /\ (duration_shown st (duration Date_getTime st now) = true ->
      (8 <= String.length (duration Date_getTime st now))%nat).
Proof.
  assert (forall start, (8 <= String.length (updateDuration start now))%nat) as Hlen.
  { intros start. unfold updateDuration. rewrite !append_length. simpl.
    pose proof (padStart2_length_ge (Number_toString (diffSeconds start now / 3600))).
    pose proof (padStart2_length_ge
                  (Number_toString (diffSeconds start now mod 3600 / 60))).
    pose proof (padStart2_length_ge (Number_toString (diffSeconds start now mod 60))).
    unfold hours, minutes, seconds. lia. }
  split.
  { unfold duration_aria_hidden, duration_shown.
    destruct (isConnected st); simpl; [|done].
    by destruct (String.eqb _ _). }
  unfold duration_shown, duration.
  destruct st as [s|]; simpl; [|split; [split; [done|by intros (? & ? & ? & ? & _)]|done]].
  unfold isConnected. destruct (status s) eqn:Hst; simpl;
    try (split; [split; [done|intros (s' & ? & ? & [= <-] & ? & _); congruence]|done]).
  destruct (start_time s) as [iso|] eqn:Hiso; simpl;
    [|split; [split; [done|intros (s' & ? & ? & [= <-] & _ & ? & _); congruence]|done]].
  destruct (String.eqb_spec iso EmptyString) as [->|Hne]; simpl.
  { split; [split; [done|]|done].
    intros (s' & iso' & ? & [= <-] & _ & ? & ? & _). congruence. }
  destruct (Date_getTime iso) as [start|] eqn:Hp; simpl.
  - assert (String.eqb (updateDuration start now) EmptyString = false) as ->.
    { apply String.eqb_neq. intros He. specialize (Hlen start).
      rewrite He in Hlen. simpl in Hlen. lia. }
    simpl. split; [split; [intros _; by exists s, iso, start|done]|].
    intros _. apply Hlen.
  - split; [split; [done|]|done].
    intros (s' & iso' & ? & [= <-] & _ & ? & _ & ?). congruence.
Qed.

End StatusFacts.

Section ButtonFacts.

Import StatusIndicator StatusButton.

(** X10. While no connection attempt is in flight the button and the texts
    agree: a click stops the server exactly when the headline reads
    ["Connected"], which is exactly when the label for screen readers is
    ["Disconnect"] and the button carries the success colour; with no status
    yet, or status stopped or error, a click connects. During an attempt the
    button is disabled, the headline reads ["Connecting..."] and the button
    never carries the success colour or the fast pulse, whatever the
    status. *)
Theorem button_agrees_with_headline (isConnecting fresh : bool)
    (st : option ServerStatusResponse) :
  (isConnecting = false ->
   button_disabled isConnecting = false
   /\ (getStatusText isConnecting st = "Connected"
       <-> handleMainButtonClick st = OnStop)
   /\ (handleMainButtonClick st = OnStop <-> aria_label st = "Disconnect")
   /\ (handleMainButtonClick st = OnStop
       <-> String.prefix "bg-success" (getButtonStateClasses isConnecting st fresh)
           = true)
   /\ (handleMainButtonClick st = OnConnect
       <-> st = None \/ exists s, st = Some s /\ status s <> RUNNING))
  /\ (isConnecting = true ->
      button_disabled isConnecting = true
      /\ getStatusText isConnecting st = "Connecting..."
      /\ getButtonStateClasses isConnecting st fresh
         = "bg-muted text-foreground animate-pulse cursor-wait").
Proof.
  split; intros ->; [|done].
  unfold getStatusText, handleMainButtonClick, aria_label,
    getButtonStateClasses, isConnected.
  split; [done|].
  destruct st as [s|]; simpl.
  - destruct (status s) eqn:Hs; simpl.
    + repeat split; try done.
      intros _. right. exists s. split; [done|congruence].
    + repeat split; try done.
      intros [?|(s' & [= <-] & Hne)]; done.
    + repeat split; try done.
      intros _. right. exists s. split; [done|congruence].
  - repeat split; try done. intros _. by left.
Qed.

Lemma pulse_invariant (es : list pulse_event) :
  forall p,
    (timer p = true -> isFreshlyConnected p = true /\ connected p = true) ->
    (pulsing p = true -> timer p = true) ->
    (connected p = false -> prevIsConnected p = false) ->
    let q := pulse_run es p in
    (timer q = true -> isFreshlyConnected q = true /\ connected q = true)
    /\ (pulsing q = true -> timer q = true)
    /\ (connected q = false -> prevIsConnected q = false).
Proof.
  induction es as [|e es IH]; intros p H1 H2 H3; simpl; [done|].
  destruct p as [c f pr t]. unfold pulsing in *. simpl in *.
  destruct e as [b|]; simpl.
  - apply IH; unfold on_status, pulsing; simpl;
      destruct b, c, f, pr, t; simpl in *; try done;
      try (by destruct H1); try (by apply H2); try (by apply H3);
      try (by specialize (H3 eq_refl)); try (by specialize (H2 eq_refl)).
  - apply IH; unfold on_timeout, pulsing; simpl;
      destruct c, f, pr, t; simpl in *; try done;
      try (by destruct H1); try (by apply H2); try (by apply H3);
      try (by specialize (H3 eq_refl)); try (by specialize (H2 eq_refl)).
Qed.

(** X11. Whatever the order of status changes and timeouts after the first
    render: whenever the button shows the fast pulse, the timeout that ends
    it is pending; a pending timeout belongs to a connected, pulsing button;
    and every change from not connected to connected starts the pulse
    together with its timeout, while a first render that is already
    connected does not pulse. *)
Theorem pulse_always_ends (first : bool) (es : list pulse_event) :
  let p := pulse_run es (mount first) in
  (pulsing p = true -> timer p = true)
  /\ (timer p = true -> pulsing p = true)
  /\ (connected p = false ->
      pulsing (on_status true p) = true /\ timer (on_status true p) = true)
  /\ pulsing (on_timeout p) = false
  /\ pulsing (mount first) = false.
Proof.
  intros p.
  destruct (pulse_invariant es (mount first)) as (H1 & H2 & H3).
  { by destruct first. }
  { by destruct first. }
  { by destruct first. }
  fold p in H1, H2, H3.
  split; [done|]. split.
  { intros Ht. destruct (H1 Ht) as [Hf Hc]. unfold pulsing. by rewrite Hf, Hc. }
  split.
  { intros Hc. specialize (H3 Hc). unfold on_status, pulsing.
    rewrite Hc, H3. done. }
  split.
  { unfold on_timeout, pulsing in *. destruct (timer p) eqn:Ht; simpl.
    - by rewrite andb_false_r.
    - destruct (connected p && isFreshlyConnected p) eqn:Hp; [|done].
      by specialize (H2 eq_refl). }
  unfold pulsing. simpl. by rewrite andb_false_r.
Qed.

End ButtonFacts.

(** ** [waitForApi] of [index.tsx] *)

Section BootstrapFacts.

Import Bootstrap.

Lemma waitForApi_waiting (startTime : Z) (checks : list (Z * bool)) :
  waitForApi startTime checks = Waiting <-> kept_waiting startTime checks.
Proof.
  unfold kept_waiting. induction checks as [|[now api] rest IH]; simpl.
  - split; [constructor|done].
  - destruct api; simpl.
    + split; [done|]. intros H. apply Forall_cons in H as [[? _] _]. done.
    + destruct (MAX_WAIT_TIME <? now - startTime) eqn:Hlate.
      * split; [done|]. intros H. apply Forall_cons in H as [[_ ?] _].
        simpl in *. apply Z.ltb_lt in Hlate. lia.
      * rewrite IH. apply Z.ltb_ge in Hlate.
        split; [intros H; apply Forall_cons; split; [done|done]|].
        intros H. by apply Forall_cons in H as [_ ?].
Qed.

Lemma waitForApi_app (startTime : Z) (before rest : list (Z * bool)) :
  kept_waiting startTime before ->
  waitForApi startTime (before ++ rest) = waitForApi startTime rest.
Proof.
  unfold kept_waiting. induction before as [|[now api] before IH]; intros H; [done|].
  apply Forall_cons in H as [[Ha Hn] H]. simpl in *. subst api.
  assert ((MAX_WAIT_TIME <? now - startTime) = false) as ->
    by (apply Z.ltb_ge; lia).
  by apply IH.
Qed.

Lemma waitForApi_split (startTime : Z) (checks : list (Z * bool)) :
  waitForApi startTime checks <> Waiting ->
  exists before now api rest,
    checks = before ++ (now, api) :: rest
    /\ kept_waiting startTime before
    /\ (api = true \/ MAX_WAIT_TIME < now - startTime).
Proof.
  induction checks as [|[now api] rest IH]; simpl; [done|].
  destruct api.
  - intros _. exists [], now, true, rest. split; [done|]. split; [constructor|by left].
  - destruct (MAX_WAIT_TIME <? now - startTime) eqn:Hlate.
    + intros _. exists [], now, false, rest.
      split; [done|]. split; [constructor|]. right. by apply Z.ltb_lt.
    + intros H. destruct (IH H) as (before & now' & api' & rest' & -> & Hk & Hd).
      exists ((now, false) :: before), now', api', rest'.
      split; [done|]. split; [|done].
      apply Forall_cons. split; [|done]. simpl. apply Z.ltb_ge in Hlate. done.
Qed.

(** X12. [waitForApi] renders the application at the first check that finds
    the bridge, provided every earlier check was within the deadline; it
    renders the error screen at the first check without the bridge that
    comes more than 5000 ms after the start, so never while all checks are
    within 5000 ms; a bridge found at a late check still wins over the
    deadline; and once either screen is rendered no later check changes
    it. *)
Theorem waitForApi_decides (startTime : Z) (checks : list (Z * bool)) :
  (waitForApi startTime checks = AppScreen
   <-> exists before now rest,
         checks = before ++ (now, true) :: rest
         /\ kept_waiting startTime before)
  /\ (forall msg,
        waitForApi startTime checks = ErrorScreen msg
        <-> msg = error_text
            /\ exists before now rest,
                 checks = before ++ (now, false) :: rest
                 /\ kept_waiting startTime before
                 /\ MAX_WAIT_TIME < now - startTime)
  /\ (Forall (fun c => c.1 - startTime <= MAX_WAIT_TIME) checks ->
      forall msg, waitForApi startTime checks <> ErrorScreen msg)
  /\ (waitForApi startTime checks <> Waiting ->
      forall more,
        waitForApi startTime (checks ++ more) = waitForApi startTime checks).
Proof.
  split; [|split; [|split]].
  - split.
    + intros Ha.
      assert (waitForApi startTime checks <> Waiting) as Hdone by by rewrite Ha.
      destruct (waitForApi_split startTime checks Hdone) as
        (before & now & api & rest & -> & Hk & Hd).
      rewrite waitForApi_app in Ha by done. simpl in Ha.
      destruct api; [by exists before, now, rest|].
      destruct Hd as [|Hd]; [done|]. apply Z.ltb_lt in Hd. by rewrite Hd in Ha.
    + intros (before & now & rest & -> & Hk).
      by rewrite waitForApi_app.
  - intros msg. split.
    + intros He.
      assert (waitForApi startTime checks <> Waiting) as Hdone by by rewrite He.
      destruct (waitForApi_split startTime checks Hdone) as
        (before & now & api & rest & -> & Hk & Hd).
      rewrite waitForApi_app in He by done. simpl in He.
      destruct api; [done|].
      destruct (MAX_WAIT_TIME <? now - startTime) eqn:Hlate.
      * inversion He. split; [done|]. exists before, now, rest.
        split; [done|]. split; [done|]. by apply Z.ltb_lt.
      * destruct Hd as [|Hd]; [done|]. apply Z.ltb_ge in Hlate. lia.
    + intros (-> & before & now & rest & -> & Hk & Hlate).
      rewrite waitForApi_app by done. simpl.
      by apply Z.ltb_lt in Hlate as ->.
  - intros Hall msg He.
    assert (waitForApi startTime checks <> Waiting) as Hdone by by rewrite He.
    destruct (waitForApi_split startTime checks Hdone) as
      (before & now & api & rest & -> & Hk & Hd).
    rewrite waitForApi_app in He by done. simpl in He.
    destruct api; [done|]. destruct Hd as [|Hd]; [done|].
    apply Forall_app in Hall as [_ Hall].
    apply Forall_cons in Hall as [Hnow _]. simpl in Hnow. lia.
  - intros Hdone more.
    destruct (waitForApi_split startTime checks Hdone) as
      (before & now & api & rest & -> & Hk & Hd).
    rewrite <- app_assoc.
    rewrite (waitForApi_app startTime before _ Hk).
    rewrite (waitForApi_app startTime before _ Hk). simpl.
    destruct api; [done|]. destruct Hd as [|Hd]; [done|].
    by apply Z.ltb_lt in Hd as ->.
Qed.

End BootstrapFacts.

(** ** The theme provider and its two effects *)

Section ThemeFacts.

Import ThemeContext.

Variable themes : list Theme.
Variable trim : string -> string.
Variable style : Type.
Variable setProperty : string -> string -> style -> style.

Lemma is_theme_In (n : string) :
  is_theme themes n = true <-> In n (map name themes).
Proof.
  unfold is_theme. rewrite existsb_exists, in_map_iff.
  split; intros (t & H1 & H2); exists t.
  - apply String.eqb_eq in H2. done.
  - split; [done|]. by apply String.eqb_eq.
Qed.

Lemma selectedTheme_valid (theme : string) (t : Theme) :
  selectedTheme themes theme = Some t ->
  In t themes /\ (is_theme themes theme = true -> name t = theme).
Proof.
  unfold selectedTheme.
  destruct (find (fun t => String.eqb (name t) theme) themes) as [t'|] eqn:Hf.
  - intros [= <-]. apply find_some in Hf as [Hin Heq].
    split; [done|]. intros _. by apply String.eqb_eq.
  - intros Hh. split.
    + destruct themes as [|t0 ts]; inversion Hh; subst. by left.
    + intros Hv. apply is_theme_In, in_map_iff in Hv as (t' & Hn & Hin).
      pose proof (find_none _ _ Hf t' Hin) as Hne. simpl in Hne.
      apply String.eqb_neq in Hne. done.
Qed.

Lemma selectedTheme_of_valid (theme : string) :
  is_theme themes theme = true ->
  exists t, selectedTheme themes theme = Some t /\ name t = theme.
Proof.
  intros Hv. unfold selectedTheme.
  destruct (find (fun t => String.eqb (name t) theme) themes) as [t'|] eqn:Hf.
  - exists t'. split; [done|]. apply find_some in Hf as [_ Heq].
    by apply String.eqb_eq.
  - apply is_theme_In, in_map_iff in Hv as (t' & Hn & Hin).
    pose proof (find_none _ _ Hf t' Hin) as Hne. simpl in Hne.
    apply String.eqb_neq in Hne. done.
Qed.

Lemma handle_keeps_valid (e : ui_event) (p : provider) :
  (theme p = "slate" \/ is_theme themes (theme p) = true) ->
  Forall (saved_ok themes trim) (sent p) ->
  (theme (handle themes trim e p) = "slate"
   \/ is_theme themes (theme (handle themes trim e p)) = true)
  /\ Forall (saved_ok themes trim) (sent (handle themes trim e p))
  /\ (frontendApi p = true -> frontendApi (handle themes trim e p) = true).
Proof.
  intros Ht Hs. destruct e as [r|n|f|n|f]; simpl.
  - destruct r as [[a|]|msg]; simpl; try done.
    split; [|done].
    destruct (a_theme a) as [t|]; [|done].
    destruct (negb (String.eqb t EmptyString) && is_theme themes t) eqn:Hv; [|done].
    right. by apply andb_true_iff in Hv as [_ ?].
  - destruct (frontendApi p && is_theme themes n) eqn:Hv; simpl; [|done].
    apply andb_true_iff in Hv as [? ?]. split; [by right|done].
  - destruct (frontendApi p); simpl; done.
  - destruct (is_theme themes n) eqn:Hv; simpl; [|done].
    split; [by right|]. split; [|done].
    apply Forall_app. split; [done|]. by constructor.
  - split; [done|]. split; [|done].
    apply Forall_app. split; [done|]. constructor; [|done]. by exists f.
Qed.

Lemma handle_all_keeps_valid (es : list ui_event) :
  forall p,
    (theme p = "slate" \/ is_theme themes (theme p) = true) ->
    Forall (saved_ok themes trim) (sent p) ->
    (theme (handle_all themes trim es p) = "slate"
     \/ is_theme themes (theme (handle_all themes trim es p)) = true)
    /\ Forall (saved_ok themes trim) (sent (handle_all themes trim es p)).
Proof.
  induction es as [|e es IH]; intros p Ht Hs; simpl; [done|].
  destruct (handle_keeps_valid e p Ht Hs) as (Ht' & Hs' & _).
  by apply IH.
Qed.

(** X13. Whatever the backend answers or pushes and whatever names the UI
    passes, the theme hook always holds the initial ['slate'] or the name of
    one of [themes]; every theme sent to the backend is one of [themes] and
    every font sent is trimmed; a push that arrives before initialisation
    has finished changes nothing; and when the hook holds the name of a
    theme, that theme and no fallback is the one the effect applies. *)
Theorem theme_state_valid (es : list ui_event) :
  let p := handle_all themes trim es initial in
  (theme p = "slate" \/ is_theme themes (theme p) = true)
  /\ Forall (saved_ok themes trim) (sent p)
  /\ (frontendApi p = false ->
      forall n f, handle themes trim (PushTheme n) p = p
                  /\ handle themes trim (PushFont f) p = p)
  /\ (is_theme themes (theme p) = true ->
      exists t, selectedTheme themes (theme p) = Some t /\ name t = theme p).
Proof.
  intros p.
  destruct (handle_all_keeps_valid es initial) as [Ht Hs];
    [by left|constructor|].
  split; [done|]. split; [done|]. split.
  - intros Hf n f. simpl. by rewrite Hf.
  - apply selectedTheme_of_valid.
Qed.

Lemma add_token_In (token c : string) (l : list string) :
  In c (add_token token l) <-> c = token \/ In c l.
Proof.
  unfold add_token. destruct (existsb (String.eqb token) l) eqn:He.
  - apply existsb_exists in He as (x & Hin & Heq). apply String.eqb_eq in Heq.
    subst x. split; [by right|]. by intros [->|].
  - rewrite in_app_iff. simpl. split; [intros [|[|]]|intros [|]]; auto; done.
Qed.

Lemma remove_tokens_In (tokens l : list string) (c : string) :
  In c (remove_tokens tokens l) <-> In c l /\ ~ In c tokens.
Proof.
  unfold remove_tokens. rewrite filter_In. split; intros [Hin Hn]; split; try done.
  - intros Hc. apply negb_true_iff in Hn.
    assert (existsb (String.eqb c) tokens = true); [|congruence].
    apply existsb_exists. exists c. split; [done|]. apply String.eqb_refl.
  - apply negb_true_iff. destruct (existsb (String.eqb c) tokens) eqn:He; [|done].
    apply existsb_exists in He as (x & Hx & Heq). apply String.eqb_eq in Heq.
    by subst x.
Qed.

Lemma add_token_NoDup (token : string) (l : list string) :
  List.NoDup l -> List.NoDup (add_token token l).
Proof.
  intros Hl. unfold add_token.
  destruct (existsb (String.eqb token) l) eqn:He; [done|].
  apply NoDup_ListNoDup. apply NoDup_ListNoDup in Hl.
  apply NoDup_app. split; [done|]. split; [|apply NoDup_singleton].
  intros x Hx Hx'. apply list_elem_of_singleton in Hx'. subst x.
  assert (existsb (String.eqb token) l = true); [|congruence].
  apply existsb_exists. exists token. split; [by apply list_elem_of_In|].
  apply String.eqb_refl.
Qed.

(** X14. When the theme effect completes, the root element carries exactly
    one class that is a theme name, the name of the applied theme; every
    class that is no theme name is kept or absent as before; no class is
    duplicated; the font link is untouched; and the applied theme is the one
    the hook names whenever it names one. The effect throws exactly when
    [themes] is empty or one of its names is no class token. *)
Theorem theme_effect_one_class (theme : string) (d : dom style) :
  (forall d', apply_theme themes setProperty theme d = Some d' ->
     exists t, selectedTheme themes theme = Some t
       /\ In (name t) (classList d')
       /\ (forall n, is_theme themes n = true -> In n (classList d') ->
                     n = name t)
       /\ (forall c, is_theme themes c = false ->
                     (In c (classList d') <-> In c (classList d)))
       /\ (List.NoDup (classList d) -> List.NoDup (classList d'))
       /\ font_link d' = font_link d
       /\ (is_theme themes theme = true -> name t = theme))
  /\ (apply_theme themes setProperty theme d = None
      <-> themes = []
          \/ exists t, In t themes /\ valid_token (name t) = false).
Proof.
  split.
  - intros d'. unfold apply_theme.
    destruct (forallb valid_token (map name themes)); [|done].
    destruct (selectedTheme themes theme) as [t|] eqn:Hsel; [|done].
    intros [= <-]. exists t. simpl.
    destruct (selectedTheme_valid theme t Hsel) as [Hin Hname].
    split; [done|]. split; [apply add_token_In; by left|].
    split.
    { intros n Hn Hc. apply add_token_In in Hc as [|Hc]; [done|].
      apply remove_tokens_In in Hc as [_ Hc]. by apply is_theme_In in Hn. }
    split.
    { intros c Hc. rewrite add_token_In, remove_tokens_In. split.
      - intros [->|[? _]]; [|done].
        assert (is_theme themes (name t) = true); [|congruence].
        apply is_theme_In, in_map. done.
      - intros Hd. right. split; [done|].
        intros Hc'. apply is_theme_In in Hc'. congruence. }
    split.
    { intros Hnd. apply add_token_NoDup. unfold remove_tokens.
      by apply List.NoDup_filter. }
    done.
  - unfold apply_theme.
    destruct (forallb valid_token (map name themes)) eqn:Hv.
    + destruct (selectedTheme themes theme) as [t|] eqn:Hsel.
      * split; [done|]. intros [->|(t' & Hin & Hbad)]; [done|].
        rewrite forallb_forall in Hv.
        rewrite Hv in Hbad; [done|]. by apply in_map.
      * split; [|done]. intros _. left. unfold selectedTheme in Hsel.
        destruct (find _ themes); [done|]. by destruct themes.
    + split; [|done]. intros _. right.
      apply not_true_iff_false in Hv.
      destruct (forallb valid_token (map name themes)) eqn:Hv'; [done|].
      clear Hv. induction themes as [|t ts IH]; [done|]. simpl in Hv'.
      apply andb_false_iff in Hv' as [Hv'|Hv'].
      * exists t. split; [by left|done].
      * destruct (IH Hv') as (t' & ? & ?). exists t'. split; [by right|done].
Qed.

Lemma has_char_app (a : ascii) (s1 s2 : string) :
  has_char a (s1 +:+ s2) = has_char a s1 || has_char a s2.
Proof.
  induction s1 as [|c s1 IH]; [done|].
  change (String c s1 +:+ s2) with (String c (s1 +:+ s2)).
  cbn [has_char]. by rewrite IH, orb_assoc.
Qed.

Lemma replace_spaces_no_space (s : string) :
  has_char " " (replace_spaces s) = false.
Proof.
  induction s as [|c s IH]; [done|]. simpl. rewrite IH.
  destruct (Ascii.eqb_spec c " "%char) as [->|Hne]; [done|].
  rewrite orb_false_r. by apply Ascii.eqb_neq.
Qed.

(** X15. After the font effect a link element exists exactly when the font
    is not empty, and then its [href] is the Google Fonts address of that
    font, which never contains a space; replacing spaces by ['+'] keeps the
    length and, for a font name without ['+'], can be undone; the classes of
    the root element are left alone. *)
Theorem font_effect_link (font : string) (d : dom style) :
  (font_link (apply_font setProperty font d) = None <-> font = EmptyString)
  /\ (font <> EmptyString ->
      font_link (apply_font setProperty font d) = Some (font_href font))
  /\ has_char " " (font_href font) = false
  /\ String.length (replace_spaces font) = String.length font
  /\ (has_char "+" font = false -> plus_to_space (replace_spaces font) = font)
  /\ classList (apply_font setProperty font d) = classList d.
Proof.
  unfold apply_font.
  destruct (String.eqb_spec font EmptyString) as [->|Hne]; simpl.
  - repeat split; done.
  - split; [split; done|]. split; [done|].
    split.
    { unfold font_href. rewrite !has_char_app, replace_spaces_no_space. done. }
    split.
    { clear Hne. induction font as [|c s IH]; [done|]. simpl. by rewrite IH. }
    split; [|done].
    clear Hne. induction font as [|c s IH]; [done|]. simpl.
    intros Hp. apply orb_false_iff in Hp as [Hc Hs]. rewrite (IH Hs).
    destruct (Ascii.eqb_spec c " "%char) as [->|Hne]; [done|].
    by rewrite Hc.
Qed.

End ThemeFacts.

(** ** Timers and promises of [ensureApiReady], and [callApp] waiting on them *)

Section ApiTimerFacts.

Import Api ApiCalls.

Lemma unique_key_size (m : gmap nat poller) :
  (forall i j t u, m !! i = Some t -> m !! j = Some u -> i = j) ->
  (size m <= 1)%nat.
Proof.
  intros Huniq.
  destruct (map_choose_or_empty m) as [(i & x & Hi)| ->];
    [|rewrite map_size_empty; lia].
  assert (m = {[i := x]}) as ->.
  { apply map_eq. intros j. destruct (decide (j = i)) as [->|Hne].
    - by rewrite lookup_singleton_eq.
    - rewrite lookup_singleton_ne by done.
      destruct (m !! j) as [u|] eqn:Hj; [|done].
      exfalso. apply Hne. by eapply Huniq. }
  rewrite map_size_singleton. lia.
Qed.

Lemma settle_lookup (q p : nat) (s : promise_state) (heap : gmap nat promise_state) :
  settle q s heap !! p = heap !! p
  \/ (p = q /\ heap !! q = Some Pending /\ settle q s heap !! p = Some s).
Proof.
  unfold settle. destruct (heap !! q) as [[| |]|] eqn:Hq; try by left.
  destruct (decide (p = q)) as [->|Hne].
  - right. by rewrite lookup_insert_eq.
  - left. by rewrite lookup_insert_ne.
Qed.

Lemma only_timeouts_step (e : event) (w : runtime) :
  only_timeouts w -> only_timeouts (step e w).
Proof.
  intros Hw p m. destruct e as [timeout now win|i now win]; simpl.
  - unfold ensureApiReady. destruct (apiReadyPromise w); [apply Hw|].
    destruct win; simpl;
      (destruct (decide (p = fresh (dom (promises w)))) as [->|Hne];
       [by rewrite lookup_insert_eq|rewrite lookup_insert_ne by done; apply Hw]).
  - unfold tick. destruct (intervals w !! i) as [t|]; [|apply Hw].
    destruct win as [api|].
    + simpl.
      destruct (settle_lookup (poll_promise t) p (Fulfilled api) (promises w))
        as [->|(_ & _ & ->)]; [apply Hw|done].
    + destruct (poll_timeout t <? now - poll_startTime t); [|apply Hw]. simpl.
      destruct (settle_lookup (poll_promise t) p (Rejected timeout_message)
                  (promises w)) as [->|(_ & _ & ->)]; [apply Hw|].
      by intros [= <-].
Qed.

Lemma only_timeouts_run (es : list event) :
  forall w, only_timeouts w -> only_timeouts (run es w).
Proof.
  induction es as [|e es IH]; intros w Hw; simpl; [done|].
  by apply IH, only_timeouts_step.
Qed.

Lemma settle_size (q : nat) (s : promise_state) (heap : gmap nat promise_state) :
  size (settle q s heap) = size heap.
Proof.
  unfold settle. destruct (heap !! q) as [[| |]|] eqn:Hq; try done.
  by apply map_size_insert_Some.
Qed.

Lemma promises_size_step (e : event) (w : runtime) :
  (size (promises (step e w)) <= size (promises w) + calls [e])%nat.
Proof.
  destruct e as [timeout now win|i now win]; simpl.
  - unfold ensureApiReady. destruct (apiReadyPromise w); simpl; [lia|].
    destruct win; simpl; rewrite map_size_insert_None by apply fresh_promise;
      unfold calls; simpl; lia.
  - unfold tick. destruct (intervals w !! i) as [t|]; [|lia].
    destruct win as [api|]; simpl; [rewrite settle_size; lia|].
    destruct (poll_timeout t <? now - poll_startTime t); simpl;
      [rewrite settle_size|]; lia.
Qed.

Lemma promises_size_run (es : list event) :
  forall w, (size (promises (run es w)) <= size (promises w) + calls es)%nat.
Proof.
  induction es as [|e es IH]; intros w; simpl; [lia|].
  specialize (IH (step e w)). pose proof (promises_size_step e w) as Hs.
  unfold calls in *. simpl in *. destruct e; simpl in *; lia.
Qed.

(** X16. In every state the module reaches at most one [setInterval] timer
    is live, it polls for the cached promise, and no timer is left behind
    when the cache is empty. Timer firings never create a promise: there are
    at most as many promises as there were calls. A promise is only ever
    rejected with the timeout message, so a [callApp] waiting on it throws
    exactly that message, and a [callApp] waiting on a pending promise has
    not completed. *)
Theorem ensureApiReady_single_timer (es : list event) :
  let w := run es boot in
  (size (intervals w) <= 1)%nat
  /\ (apiReadyPromise w = None -> intervals w = ∅)
  /\ (forall i t, intervals w !! i = Some t ->
        apiReadyPromise w = Some (poll_promise t)
        /\ await w (poll_promise t) = None)
  /\ (size (promises w) <= calls es)%nat
  /\ (forall p m, promises w !! p = Some (Rejected m) ->
        m = timeout_message
        /\ forall method args,
             callApp_on w p method args = Some (Throw timeout_message))
  /\ (forall p, promises w !! p = Some Pending ->
        forall method args, callApp_on w p method args = None).
Proof.
  intros w.
  assert (consistent w) as (H1 & H2 & H3 & H4)
    by apply consistent_run, consistent_boot.
  split; [by apply unique_key_size|].
  split.
  { intros Hc. apply map_empty. intros i.
    destruct (intervals w !! i) as [t|] eqn:Hi; [|done].
    destruct (H1 i t Hi) as [? _]. congruence. }
  split.
  { intros i t Hi. destruct (H1 i t Hi) as [Hc Hp]. split; [done|].
    unfold await. unfold pending in Hp. by rewrite Hp. }
  split.
  { pose proof (promises_size_run es boot) as Hs. fold w in Hs.
    assert (size (promises boot) = 0%nat) as Hz by apply map_size_empty.
    lia. }
  split.
  { intros p m Hp.
    assert (m = timeout_message) as ->.
    { eapply (only_timeouts_run es boot); [|exact Hp]. intros q m' Hq.
      unfold boot in Hq. simpl in Hq. by rewrite lookup_empty in Hq. }
    split; [done|]. intros method args. unfold callApp_on, await. by rewrite Hp. }
  intros p Hp method args. unfold callApp_on, await. by rewrite Hp.
Qed.

End ApiTimerFacts.

(** ** The further statements at concrete inputs *)

Lemma polls_deliver_every_batch_witness :
  (LogStreamModal.polling Samples.open_modal = true
   /\ LogStreamModal.m_logs
        (LogStreamModal.run_polls Samples2.three_polls Samples.open_modal)
      = [Samples2.line_dial; Samples2.line_ok])
  /\ (LogStreamModal.polling LogStreamModal.mount = false
      /\ LogStreamModal.run_polls Samples2.three_polls LogStreamModal.mount
         = LogStreamModal.mount).
Proof.
  split; (split; [reflexivity|]).
  - exact (proj1 (polls_deliver_every_batch Samples2.three_polls Samples.open_modal)
             eq_refl).
  - exact (proj2 (polls_deliver_every_batch Samples2.three_polls LogStreamModal.mount)
             eq_refl).
Defined.

Lemma polls_never_surface_errors_witness :
  LogStreamView.renderLogs Samples2.failed_modal = LogStreamView.ErrorText "boom"
  /\ LogStreamView.renderLogs
       (LogStreamModal.run_polls Samples2.three_polls Samples2.failed_modal)
     = LogStreamView.ErrorText "boom".
Proof.
  split; [reflexivity|].
  destruct (polls_never_surface_errors Samples2.three_polls Samples2.failed_modal)
    as (_ & _ & _ & Herr & _).
  exact (proj2 (Herr "boom") eq_refl).
Defined.

Lemma cursor_is_last_offer_witness :
  LogStreamModal.polling Samples.open_modal = true
  /\ LogStreamModal.sinceMsRef
       (LogStreamModal.run_polls Samples2.three_polls Samples.open_modal)
     = Some 900.
Proof.
  split; [reflexivity|].
  exact (proj1 (cursor_is_last_offer Samples2.three_polls Samples.open_modal
                  eq_refl)).
Defined.

Lemma initial_load_gate_witness :
  LogStreamView.renderLogs
    (LogStreamModal.fetchInitialLogs (Throw EmptyString) 5 LogStreamModal.mount)
  = LogStreamView.NoEntries
  /\ LogStreamModal.polling
       (LogStreamModal.fetchInitialLogs (Throw EmptyString) 5 LogStreamModal.mount)
     = true.
Proof.
  destruct (initial_load_gate (Throw EmptyString) 5)
    as (_ & _ & Hpoll & _ & Hempty & _).
  split.
  - exact (proj1 (Hempty eq_refl)).
  - exact (proj2 Hpoll (or_intror eq_refl)).
Defined.

Lemma callApp_returns_no_envelope_witness :
  Api.callApp (Return (Some (Samples.answering Samples.stopped_payload)))
    "stop_server" []
  = Return Samples.stopped_payload
  /\ Api.is_failure Samples.stopped_payload = false.
Proof.
  split; [reflexivity|].
  exact (callApp_returns_no_envelope
           (Return (Some (Samples.answering Samples.stopped_payload)))
           "stop_server" [] Samples.stopped_payload eq_refl).
Defined.


Lemma duration_counts_whole_seconds_witness :
  (1000 <= 2500
   /\ StatusIndicator.diffSeconds 0 1000 <= StatusIndicator.diffSeconds 0 2500)
  /\ (400 < 0 + 1000 /\ StatusIndicator.diffSeconds 0 400 = 0)
  /\ (0 <= 1500
      /\ StatusIndicator.diffSeconds 0 (1500 + 1000)
         = StatusIndicator.diffSeconds 0 1500 + 1).
Proof.
  assert (1000 <= 2500) as H1 by lia.
  assert (400 < 0 + 1000) as H2 by lia.
  assert (0 <= 1500) as H3 by lia.
  split; [|split].
  - split; [exact H1|].
    exact (proj1 (duration_counts_whole_seconds 0 1000 2500) H1).
  - split; [exact H2|].
    exact (proj1 (proj2 (duration_counts_whole_seconds 0 400 400)) H2).
  - split; [exact H3|].
    exact (proj1 (proj2 (proj2 (duration_counts_whole_seconds 0 1500 1500))) H3).
Defined.

Lemma display_determines_seconds_witness :
  StatusIndicator.updateDuration 0 1000 = StatusIndicator.updateDuration 500 1999
  /\ StatusIndicator.diffSeconds 0 1000 = StatusIndicator.diffSeconds 500 1999.
Proof.
  split; [reflexivity|].
  exact (display_determines_seconds 0 1000 500 1999 eq_refl).
Defined.

Lemma duration_chip_shown_iff_witness :
  StatusButton.duration_shown (Some (Samples.running_since "t=1000"))
    (StatusIndicator.duration Samples.getTime_1000
       (Some (Samples.running_since "t=1000")) 3726500)
  = true
  /\ (8 <= String.length
             (StatusIndicator.duration Samples.getTime_1000
                (Some (Samples.running_since "t=1000")) 3726500))%nat.
Proof.
  split; [reflexivity|].
  exact (proj2 (proj2 (duration_chip_shown_iff Samples.getTime_1000
                         (Some (Samples.running_since "t=1000")) 3726500))
               eq_refl).
Defined.

Lemma button_agrees_with_headline_witness :
  StatusButton.getStatusText false (Some (Samples.running_since "t=1000"))
  = "Connected"
  /\ StatusButton.handleMainButtonClick (Some (Samples.running_since "t=1000"))
     = StatusButton.OnStop.
Proof.
  split; [reflexivity|].
  destruct (proj1 (button_agrees_with_headline false true
                     (Some (Samples.running_since "t=1000"))) eq_refl)
    as (_ & Htext & _).
  exact (proj1 Htext eq_refl).
Defined.

Lemma pulse_always_ends_witness :
  StatusButton.connected
    (StatusButton.pulse_run [StatusButton.Status true; StatusButton.Status false]
       (StatusButton.mount false)) = false
  /\ StatusButton.timer
       (StatusButton.on_status true
          (StatusButton.pulse_run
             [StatusButton.Status true; StatusButton.Status false]
             (StatusButton.mount false))) = true.
Proof.
  split; [reflexivity|].
  destruct (pulse_always_ends false
              [StatusButton.Status true; StatusButton.Status false])
    as (_ & _ & Hrise & _).
  exact (proj2 (Hrise eq_refl)).
Defined.

Lemma waitForApi_decides_witness :
  (Forall (fun c : Z * bool => c.1 - 0 <= Bootstrap.MAX_WAIT_TIME)
          [(100, false); (5000, false)]
   /\ Bootstrap.waitForApi 0 [(100, false); (5000, false)]
      <> Bootstrap.ErrorScreen Bootstrap.error_text)
  /\ (Bootstrap.waitForApi 0 [(100, false); (5100, true)] <> Bootstrap.Waiting
      /\ Bootstrap.waitForApi 0 ([(100, false); (5100, true)] ++ [(5200, false)])
         = Bootstrap.waitForApi 0 [(100, false); (5100, true)]).
Proof.
  assert (Forall (fun c : Z * bool => c.1 - 0 <= Bootstrap.MAX_WAIT_TIME)
            [(100, false); (5000, false)]) as Hin.
  { repeat apply Forall_cons_2; [| |apply Forall_nil_2];
      unfold Bootstrap.MAX_WAIT_TIME; simpl; lia. }
  assert (Bootstrap.waitForApi 0 [(100, false); (5100, true)] <> Bootstrap.Waiting)
    as Hdone by discriminate.
  split.
  - split; [exact Hin|].
    exact (proj1 (proj2 (proj2 (waitForApi_decides 0 [(100, false); (5000, false)])))
             Hin Bootstrap.error_text).
  - split; [exact Hdone|].
    exact (proj2 (proj2 (proj2 (waitForApi_decides 0 [(100, false); (5100, true)])))
             Hdone [(5200, false)]).
Defined.

Lemma theme_state_valid_witness :
  ThemeContext.frontendApi
    (ThemeContext.handle_all Samples2.two_themes Samples2.no_trim
       [ThemeContext.SetTheme "rose"] ThemeContext.initial) = false
  /\ ThemeContext.handle Samples2.two_themes Samples2.no_trim
       (ThemeContext.PushTheme "slate")
       (ThemeContext.handle_all Samples2.two_themes Samples2.no_trim
          [ThemeContext.SetTheme "rose"] ThemeContext.initial)
     = ThemeContext.handle_all Samples2.two_themes Samples2.no_trim
         [ThemeContext.SetTheme "rose"] ThemeContext.initial.
Proof.
  split; [reflexivity|].
  destruct (theme_state_valid Samples2.two_themes Samples2.no_trim
              [ThemeContext.SetTheme "rose"]) as (_ & _ & Hpush & _).
  exact (proj1 (Hpush eq_refl "slate" EmptyString)).
Defined.

Lemma theme_effect_one_class_witness :
  ThemeContext.apply_theme Samples2.two_themes Samples2.keep_style "rose"
    Samples2.dark_slate = Some Samples2.dark_rose
  /\ exists t,
       ThemeContext.selectedTheme Samples2.two_themes "rose" = Some t
       /\ In (ThemeContext.name t) (ThemeContext.classList Samples2.dark_rose).
Proof.
  split; [reflexivity|].
  destruct (proj1 (theme_effect_one_class Samples2.two_themes unit
                     Samples2.keep_style "rose" Samples2.dark_slate)
              Samples2.dark_rose eq_refl) as (t & Hsel & Hin & _).
  exists t. split; [exact Hsel|exact Hin].
Defined.

Lemma font_effect_link_witness :
  "Fira Sans" <> EmptyString
  /\ ThemeContext.font_link
       (ThemeContext.apply_font Samples2.keep_style "Fira Sans" Samples2.dark_slate)
     = Some "https://fonts.googleapis.com/css2?family=Fira+Sans:wght@400;500;600;700&display=swap"
  /\ ThemeContext.has_char "+" "Fira Sans" = false
  /\ ThemeContext.plus_to_space (ThemeContext.replace_spaces "Fira Sans")
     = "Fira Sans".
Proof.
  assert ("Fira Sans" <> EmptyString) as Hne by discriminate.
  destruct (font_effect_link unit Samples2.keep_style "Fira Sans" Samples2.dark_slate)
    as (_ & Hlink & _ & _ & Hback & _).
  split; [exact Hne|]. split; [exact (Hlink Hne)|].
  split; [reflexivity|exact (Hback eq_refl)].
Defined.

Lemma ensureApiReady_single_timer_witness :
  Api.promises Samples.timed_out !! 0%nat = Some (Api.Rejected Api.timeout_message)
  /\ ApiCalls.callApp_on Samples.timed_out 0%nat "get_settings" []
     = Some (Throw Api.timeout_message)
  /\ Api.promises Samples.waiting !! 0%nat = Some Api.Pending
  /\ ApiCalls.callApp_on Samples.waiting 0%nat "get_settings" [] = None.
Proof.
  split; [reflexivity|]. split.
  - destruct (ensureApiReady_single_timer
                [Api.Call Api.default_timeout 0 None; Api.Tick 0 10100 None])
      as (_ & _ & _ & _ & Hrej & _).
    exact (proj2 (Hrej 0%nat Api.timeout_message eq_refl) "get_settings" []).
  - split; [reflexivity|].
    destruct (ensureApiReady_single_timer [Api.Call Api.default_timeout 0 None])
      as (_ & _ & _ & _ & _ & Hpend).
    exact (Hpend 0%nat eq_refl "get_settings" []).
Defined.
